(** * simple_lookup: the resource-record list and its renderer

    A shallow embedding of [main.c] of simple_lookup: the singly linked
    list of [struct rr_response] nodes with its throwaway head node, the
    decode loop [rr_response_parse], the renderer [rr_pretty_print_all],
    the hostname check and [main].

    The C code works on a heap of list nodes, reads payload bytes through
    pointers into the resolver's answer buffer and writes to two streams.
    All of that is explicit here: a [world] holds the node heap, the answer
    buffer, both streams and the log of payload bytes that were read, and
    the C functions are computations in a state-and-fault monad over it.
    A fault ([None]) stands for behaviour that C leaves undefined: a
    dereferenced null or dangling pointer, a read outside the answer buffer,
    a list walk that never ends.

    What the C library and the resolver do (malloc, regcomp/regexec,
    res_query, ns_initparse, ns_msg_count, ns_parserr) is not part of the
    program: the class [libc] collects them as oracles. *)

From Stdlib Require Import ZArith NArith String Ascii List Lia DecimalString.
From stdpp Require Import gmap strings list.

Open Scope Z_scope.

(** ** Constants of <arpa/nameser.h>, <regex.h> and of the program *)

Definition MAX_HOSTNAME_LEN : Z := 253.
Definition NS_PACKETSZ : N := 512.
Definition ns_t_a : Z := 1.
Definition ns_t_cname : Z := 5.
Definition ns_c_in : Z := 1.
Definition ns_s_an : Z := 1.
Definition REG_EXTENDED : Z := 1.
Definition REG_NOMATCH : Z := 1.

(** ** Data *)

(** Addresses of list nodes; [None] is the null pointer. *)
Abbreviation loc := positive.

(** A [const u_char *] into the answer buffer: [None] is the null pointer,
    [Some off] points at byte [off] of the buffer. *)
Abbreviation uchar_ptr := (option nat).

(** [struct rr_response]. *)
Record rr_response := mk_rr_response {
  type : Z;
  class : Z;
  ttl : N;
  rdlength : Z;
  rdata : uchar_ptr;
  next : option loc
}.

(** [ns_rr] of the resolver library, without the owner name, which the
    program never reads. *)
Record ns_rr := mk_ns_rr {
  rr_type : Z;
  rr_class : Z;
  rr_ttl : N;
  rr_rdlength : Z;
  rr_rdata : uchar_ptr
}.

(** The accessor macros of <arpa/nameser.h>. *)
Definition ns_rr_type (rr : ns_rr) : Z := rr_type rr.
Definition ns_rr_class (rr : ns_rr) : Z := rr_class rr.
Definition ns_rr_ttl (rr : ns_rr) : N := rr_ttl rr.
Definition ns_rr_rdlen (rr : ns_rr) : Z := rr_rdlength rr.
Definition ns_rr_rdata (rr : ns_rr) : uchar_ptr := rr_rdata rr.

(** ** The world the program runs in *)

Record world := mk_world {
  heap : gmap loc rr_response;  (* the live list nodes *)
  packet : list Byte.byte;      (* the contents of ns_buffer *)
  stdout : string;              (* what printf wrote *)
  stderr : list string;         (* the messages of perror and fprintf(stderr) *)
  loads : list nat              (* offsets of the payload bytes read so far *)
}.

Definition set_heap (h : gmap loc rr_response) (w : world) : world :=
  mk_world h (packet w) (stdout w) (stderr w) (loads w).
Definition set_packet (p : list Byte.byte) (w : world) : world :=
  mk_world (heap w) p (stdout w) (stderr w) (loads w).
Definition put_stdout (s : string) (w : world) : world :=
  mk_world (heap w) (packet w) (stdout w +:+ s) (stderr w) (loads w).
Definition put_stderr (s : string) (w : world) : world :=
  mk_world (heap w) (packet w) (stdout w) (stderr w ++ [s]) (loads w).
Definition log_load (off : nat) (w : world) : world :=
  mk_world (heap w) (packet w) (stdout w) (stderr w) (loads w ++ [off]).

(** ** The monad: state passing over [world], [None] for a fault *)

Definition M (A : Type) : Type := world -> option (A * world).

Definition ret {A} (a : A) : M A := fun w => Some (a, w).
Definition bind {A B} (m : M A) (k : A -> M B) : M B :=
  fun w => match m w with
           | Some (a, w') => k a w'
           | None => None
           end.
Definition fault {A} : M A := fun _ => None.
Definition get_world : M world := fun w => Some (w, w).
Definition get_packet : M (list Byte.byte) := fun w => Some (packet w, w).
Definition modify (f : world -> world) : M unit := fun w => Some (tt, f w).

Declare Scope c_scope.
Delimit Scope c_scope with C.
Notation "x <- c ;; k" := (bind c (fun x => k))
  (at level 100, c at next level, right associativity) : c_scope.
Notation "c ;; k" := (bind c (fun _ => k))
  (at level 100, right associativity) : c_scope.
Open Scope c_scope.

(** ** The streams *)

Definition printf (s : string) : M unit := modify (put_stdout s).
(** [perror s] writes [s], a colon and the text of errno to stderr; the log
    keeps [s]. *)
Definition perror (s : string) : M unit := modify (put_stderr s).
Definition fprintf_stderr (s : string) : M unit := modify (put_stderr s).

(** printf's conversions. *)
Definition fmt_d (z : Z) : string := NilZero.string_of_int (Z.to_int z).
Definition fmt_lu (n : N) : string := NilZero.string_of_uint (N.to_uint n).
Definition fmt_d_uchar (b : Byte.byte) : string := fmt_lu (Byte.to_N b).

Definition hex_digit (n : N) : ascii :=
  match n with
  | 0 => "0" | 1 => "1" | 2 => "2" | 3 => "3" | 4 => "4" | 5 => "5"
  | 6 => "6" | 7 => "7" | 8 => "8" | 9 => "9" | 10 => "a" | 11 => "b"
  | 12 => "c" | 13 => "d" | 14 => "e" | _ => "f"
  end%N%char.

(** "%02x" at an unsigned char: always two digits. *)
Definition fmt_02x (b : Byte.byte) : string :=
  String (hex_digit (Byte.to_N b / 16)) (String (hex_digit (Byte.to_N b mod 16)) "").

Definition newline : string := String (ascii_of_nat 10) "".

(** ** Memory *)

(** [*p] for a node pointer. *)
Definition load (p : option loc) : M rr_response :=
  match p with
  | None => fault
  | Some l => fun w => match heap w !! l with
                       | Some n => Some (n, w)
                       | None => None
                       end
  end.

(** [*p = n] for a node pointer. *)
Definition store (p : option loc) (n : rr_response) : M unit :=
  match p with
  | None => fault
  | Some l => fun w => match heap w !! l with
                       | Some _ => Some (tt, set_heap (<[l := n]> (heap w)) w)
                       | None => None
                       end
  end.

(** [p[j]] for a payload pointer. *)
Definition load_uchar (p : uchar_ptr) (j : Z) : M Byte.byte :=
  match p with
  | None => fault
  | Some off =>
      if j <? 0 then fault else
      fun w => match packet w !! (off + Z.to_nat j)%nat with
               | Some b => Some (b, log_load (off + Z.to_nat j)%nat w)
               | None => None
               end
  end.

(** The bytes "%s" prints: from [off] up to the first NUL, which is read
    too. [bs] is the buffer from [off] on. *)
Fixpoint read_cstring (off : nat) (bs : list Byte.byte) : M string :=
  match bs with
  | [] => fault
  | b :: bs' =>
      modify (log_load off) ;;
      if Byte.eqb b Byte.x00 then ret EmptyString
      else s <- read_cstring (S off) bs' ;; ret (String (ascii_of_byte b) s)
  end.

Definition load_cstring (p : uchar_ptr) : M string :=
  match p with
  | None => fault
  | Some off => pkt <- get_packet ;; read_cstring off (drop off pkt)
  end.

(** ** The C library and the resolver

    [malloc_rr h] is [malloc(sizeof(struct rr_response))] when the live
    nodes are [h]: [None] when malloc returns NULL, otherwise the contents
    of the fresh block, which malloc leaves indeterminate. The address is
    immaterial to the program (it prints no pointer and compares pointers
    with NULL only), so the model takes the first free one.

    [ns_parserr msg section i] gives the status, the handle after the call
    and the contents of the caller's [ns_rr] after the call; when the call
    fails (a negative status) these contents are whatever the variable
    holds, as the caller declares it without an initialiser. *)
Class libc := {
  ns_msg : Type;
  malloc_rr : gmap loc rr_response -> option rr_response;
  malloc_uchar : N -> option (list Byte.byte);
  regcomp : string -> Z -> Z;
  regexec : string -> string -> Z;
  res_query : string -> Z -> Z -> list Byte.byte -> N -> Z * list Byte.byte;
  ns_initparse : list Byte.byte -> Z -> Z * ns_msg;
  ns_msg_count : ns_msg -> Z -> Z;
  ns_parserr : ns_msg -> Z -> Z -> Z * ns_msg * ns_rr
}.

Section Program.
Context `{L : libc}.

(** ** The list *)

Definition rr_response_new : M (option loc) :=
  w <- get_world ;;
  match malloc_rr (heap w) with
  | None => perror "Could not allocate rr_response" ;; ret None
  | Some junk =>
      let l := fresh (dom (heap w)) in
      modify (set_heap (<[l := junk]> (heap w))) ;; ret (Some l)
  end.

Definition rr_response_free (response : option loc) : M unit :=
  match response with
  | None => ret tt
  | Some l =>
      w <- get_world ;;
      match heap w !! l with
      | Some _ => modify (set_heap (delete l (heap w)))
      | None => fault
      end
  end.

(** [while (current->next != NULL) current = current->next;] The walk
    visits a node per step: one that has not ended after more steps than
    there are live nodes is in a cycle and never ends. *)
Fixpoint rr_response_add_walk (fuel : nat) (current : option loc) : M (option loc) :=
  match fuel with
  | O => fault
  | S fuel' =>
      n <- load current ;;
      match next n with
      | None => ret current
      | Some _ => rr_response_add_walk fuel' (next n)
      end
  end.

Definition set_next (n : rr_response) (new : option loc) : rr_response :=
  mk_rr_response (type n) (class n) (ttl n) (rdlength n) (rdata n) new.

Definition rr_response_add (response new : option loc) : M unit :=
  match response with
  | None => perror "response is NULL"
  | Some _ => ret tt
  end ;;
  w <- get_world ;;
  current <- rr_response_add_walk (S (size (heap w))) response ;;
  n <- load current ;;
  store current (set_next n new).

(** ** The renderer *)

(** [for (int j = 0; j < current->rdlength; j++) printf("%02x ", ...)],
    with [k] iterations left. *)
Fixpoint hexdump_loop (k : nat) (p : uchar_ptr) (j : Z) : M unit :=
  match k with
  | O => ret tt
  | S k' =>
      b <- load_uchar p j ;;
      printf (fmt_02x b +:+ " ") ;;
      hexdump_loop k' p (j + 1)
  end.

(** The body of the loop of [rr_pretty_print_all], up to the switch's end. *)
Definition rr_pretty_print (current : rr_response) : M unit :=
  printf ("Type: " +:+ fmt_d (type current) +:+ " ") ;;
  printf ("Class: " +:+ fmt_d (class current) +:+ " ") ;;
  printf ("TTL: " +:+ fmt_lu (ttl current) +:+ " ") ;;
  printf ("RDLength: " +:+ fmt_d (rdlength current) +:+ " ") ;;
  match rdata current with
  | None => perror "rdata is NULL"
  | Some _ => ret tt
  end ;;
  if type current =? ns_t_a then
    if rdlength current =? 4 then
      b0 <- load_uchar (rdata current) 0 ;;
      b1 <- load_uchar (rdata current) 1 ;;
      b2 <- load_uchar (rdata current) 2 ;;
      b3 <- load_uchar (rdata current) 3 ;;
      printf ("RData: " +:+ fmt_d_uchar b0 +:+ "." +:+ fmt_d_uchar b1 +:+ "."
              +:+ fmt_d_uchar b2 +:+ "." +:+ fmt_d_uchar b3 +:+ newline)
    else
      printf ("Invalid A record length" +:+ newline)
  else if type current =? ns_t_cname then
    s <- load_cstring (rdata current) ;;
    printf ("RData (CNAME): " +:+ s +:+ newline)
  else
    printf "RData (unknown type): " ;;
    hexdump_loop (Z.to_nat (rdlength current)) (rdata current) 0 ;;
    printf newline.

(** [while (current != NULL) { ...; current = current->next; }] *)
Fixpoint rr_pretty_print_loop (fuel : nat) (current : option loc) : M unit :=
  match current with
  | None => ret tt
  | Some _ =>
      match fuel with
      | O => fault
      | S fuel' =>
          n <- load current ;;
          rr_pretty_print n ;;
          rr_pretty_print_loop fuel' (next n)
      end
  end.

Definition rr_pretty_print_all (response : option loc) : M unit :=
  match response with
  | None => perror "response is NULL"
  | Some _ => ret tt
  end ;;
  (* skip the first element *)
  head <- load response ;;
  w <- get_world ;;
  rr_pretty_print_loop (size (heap w)) (next head).

(** ** The decoder *)

(** [for (int i = 0; i < ancount; i++) { ... }], with [k] iterations left;
    the handle is updated through the pointer [msg]. *)
Fixpoint rr_response_parse_loop (k : nat) (response : option loc)
    (msg : ns_msg) (i : Z) : M ns_msg :=
  match k with
  | O => ret msg
  | S k' =>
      let '(r, msg', rr) := ns_parserr msg ns_s_an i in
      (if r <? 0 then perror "Could not parse response" else ret tt) ;;
      let type := ns_rr_type rr in
      let class := ns_rr_class rr in
      let ttl := ns_rr_ttl rr in
      let rdlength := ns_rr_rdlen rr in
      let rdata := ns_rr_rdata rr in
      new <- rr_response_new ;;
      n <- load new ;;
      store new (mk_rr_response type class ttl rdlength rdata (next n)) ;;
      rr_response_add response new ;;
      rr_response_parse_loop k' response msg' (i + 1)
  end.

Definition rr_response_parse (response : option loc) (msg : ns_msg)
    (ancount : Z) : M ns_msg :=
  match response with
  | None => perror "response is NULL"
  | Some _ => ret tt
  end ;;
  rr_response_parse_loop (Z.to_nat ancount) response msg 0.

(** ** The hostname check and main *)

Definition hostname_pattern : string :=
  "^([a-zA-Z0-9]([a-zA-Z0-9\-]*[a-zA-Z0-9])?\.)+[a-zA-Z]{2,}$".

Definition isvalidhostname (hostname : string) : M Z :=
  let reti := regcomp hostname_pattern REG_EXTENDED in
  (if reti =? 0 then ret tt else perror "Could not compile regex") ;;
  let reti := regexec hostname_pattern hostname in
  if reti =? REG_NOMATCH then perror "Hostname is invalid" ;; ret 1
  else if reti =? 0 then ret 0
  else perror "Could not execute regex" ;; ret 1.

(** [strncpy(hostname, src, MAX_HOSTNAME_LEN); hostname[MAX_HOSTNAME_LEN] = 0]. *)
Definition strncpy_hostname (src : string) : string :=
  String.substring 0 (Z.to_nat MAX_HOSTNAME_LEN) src.

Definition strlen (s : string) : Z := Z.of_nat (String.length s).

(** [main]; [argv] holds the [argc] arguments. The result is the exit
    status. *)
Definition main (argv : list string) : M Z :=
  match argv with
  | [] => fault
  | [argv0] => printf ("Usage: " +:+ argv0 +:+ " <hostname>" +:+ newline) ;; ret 1
  | argv0 :: argv1 :: _ =>
      (if 253 <? strlen argv1 then perror "Hostname is too long" else ret tt) ;;
      let hostname := strncpy_hostname argv1 in
      invalid <- isvalidhostname argv1 ;;
      if negb (invalid =? 0) then ret 1 else
      match malloc_uchar NS_PACKETSZ with
      | None => fprintf_stderr ("Could not allocate ns_buffer" +:+ newline) ;; ret 1
      | Some ns_buffer =>
          printf ("Resolving hostname " +:+ hostname +:+ newline) ;;
          let '(response, ns_buffer) :=
            res_query hostname ns_c_in ns_t_a ns_buffer NS_PACKETSZ in
          modify (set_packet ns_buffer) ;;
          if response <? 0 then
            fprintf_stderr ("Could not resolve hostname" +:+ newline) ;;
            modify (set_packet []) ;;
            ret 1
          else
          let '(r, msg) := ns_initparse ns_buffer response in
          if r <? 0 then
            fprintf_stderr ("Could not parse response" +:+ newline) ;;
            modify (set_packet []) ;;
            ret 1
          else
          let ancount := ns_msg_count msg ns_s_an in
          (if ancount =? 0 then perror "No answers found" else ret tt) ;;
          response_list <- rr_response_new ;;
          rr_response_parse response_list msg ancount ;;
          printf ("Response:" +:+ newline) ;;
          rr_pretty_print_all response_list ;;
          rr_response_free response_list ;;
          modify (set_packet []) ;;
          ret 0
      end
  end.

End Program.

(** * Specification *)

(** ** The list a head node stands for

    [is_list h p cells]: following [next] from [p] in [h] visits exactly
    the nodes [cells], each with its address, and ends at a null link. *)
Inductive is_list (h : gmap loc rr_response) :
    option loc -> list (loc * rr_response) -> Prop :=
| is_list_nil : is_list h None []
| is_list_cons l n cells :
    h !! l = Some n ->
    is_list h (next n) cells ->
    is_list h (Some l) ((l, n) :: cells).

(** The record a node carries. *)
Definition rr_of (n : rr_response) : ns_rr :=
  mk_ns_rr (type n) (class n) (ttl n) (rdlength n) (rdata n).

(** The nodes reached from [p], read off the heap. *)
Fixpoint nodes_from (fuel : nat) (h : gmap loc rr_response) (p : option loc)
    : option (list rr_response) :=
  match p with
  | None => Some []
  | Some l =>
      match fuel with
      | O => None
      | S fuel' =>
          match h !! l with
          | None => None
          | Some n =>
              match nodes_from fuel' h (next n) with
              | None => None
              | Some ns => Some (n :: ns)
              end
          end
      end
  end.

(** The RecordList a head node stands for: the records of the nodes after
    the head, in list order. *)
Definition RecordList (h : gmap loc rr_response) (response : option loc)
    : option (list ns_rr) :=
  match response with
  | None => None
  | Some l =>
      match h !! l with
      | None => None
      | Some head =>
          match nodes_from (size h) h (next head) with
          | Some ns => Some (rr_of <$> ns)
          | None => None
          end
      end
  end.

(** ** The decode pass and the renderer *)

Section Vocabulary.
Context `{L : libc}.

(** malloc succeeds and hands out blocks whose link field reads as a null
    pointer. The program relies on it: neither [rr_response_new] nor its
    callers ever write [next] before [rr_response_add] and the renderer
    read it. *)
Definition malloc_clean : Prop :=
  forall h, exists junk, malloc_rr h = Some junk /\ next junk = None.

(** What the calls of [ns_parserr] in [k] iterations from index [i] give:
    status and record contents, in call order. *)
Fixpoint extractions (k : nat) (msg : ns_msg) (i : Z) : list (Z * ns_rr) :=
  match k with
  | O => []
  | S k' =>
      let '(r, msg', rr) := ns_parserr msg ns_s_an i in
      (r, rr) :: extractions k' msg' (i + 1)
  end.

(** The diagnostics of the failed extractions among [es]. *)
Definition parse_errors (es : list (Z * ns_rr)) : list string :=
  flat_map (fun e => if e.1 <? 0 then ["Could not parse response"%string] else []) es.

End Vocabulary.

(** A computation is oblivious when it runs the same way whatever the heap
    is and leaves the heap as it is. *)
Definition oblivious {A} (m : M A) : Prop :=
  forall h w,
    m (set_heap h w) = match m w with
                       | Some (a, w') => Some (a, set_heap h w')
                       | None => None
                       end.

(** Rendering the records [ns] one after the other. *)
Fixpoint print_records (ns : list rr_response) : M unit :=
  match ns with
  | [] => ret tt
  | n :: ns' => rr_pretty_print n ;; print_records ns'
  end.

(** The four labeled fields that open the line of a record, as the four
    calls of printf write them. *)
Definition rr_header (n : rr_response) : string :=
  ("Type: " +:+ fmt_d (type n) +:+ " ") +:+
  ("Class: " +:+ fmt_d (class n) +:+ " ") +:+
  ("TTL: " +:+ fmt_lu (ttl n) +:+ " ") +:+
  ("RDLength: " +:+ fmt_d (rdlength n) +:+ " ").

(** The diagnostic of the null check on [rdata]. *)
Definition rdata_null_error (n : rr_response) : list string :=
  match rdata n with
  | None => ["rdata is NULL"%string]
  | Some _ => []
  end.

(** The text of the loop of "%02x ": every byte is followed by a space. *)
Fixpoint hex_bytes (bs : list Byte.byte) : string :=
  match bs with
  | [] => ""
  | b :: bs' => (fmt_02x b +:+ " ") +:+ hex_bytes bs'
  end.

(** The dump as the specification words it: the bytes in two hexadecimal
    digits each, separated by single spaces. *)
Definition hex_separated (bs : list Byte.byte) : string :=
  String.concat " " (fmt_02x <$> bs).

(** [one_line s]: there is no newline character in [s]. *)
Fixpoint one_line (s : string) : bool :=
  match s with
  | EmptyString => true
  | String c s' => negb (Ascii.eqb c (ascii_of_nat 10)) && one_line s'
  end.

(** The payload pointer of [n] is good for what the renderer reads through
    it: four bytes of an address record of length 4, a NUL-terminated
    string of a canonical-name record, [rdlength] bytes of any other
    record. *)
Definition renderable (pkt : list Byte.byte) (n : rr_response) : bool :=
  if type n =? ns_t_a then
    if rdlength n =? 4 then
      match rdata n with
      | Some off => (off + 4 <=? length pkt)%nat
      | None => false
      end
    else true
  else if type n =? ns_t_cname then
    match rdata n with
    | Some off => existsb (Byte.eqb Byte.x00) (drop off pkt)
    | None => false
    end
  else
    (rdlength n <=? 0)
    || match rdata n with
       | Some off => (off + Z.to_nat (rdlength n) <=? length pkt)%nat
       | None => false
       end.

(** The bytes of the C string that starts [bs]: those before the first
    NUL. *)
Fixpoint until_nul (bs : list Byte.byte) : list Byte.byte :=
  match bs with
  | [] => []
  | b :: bs' => if Byte.eqb b Byte.x00 then [] else b :: until_nul bs'
  end.

(** The text the renderer prints for [n] holds no newline of its own: [n]
    is no canonical name, or the C string at its [rdata] has no byte 0x0a. *)
Definition text_has_no_newline (pkt : list Byte.byte) (n : rr_response) : bool :=
  if type n =? ns_t_cname then
    match rdata n with
    | Some off => negb (existsb (Byte.eqb Byte.x0a) (until_nul (drop off pkt)))
    | None => true
    end
  else true.


(** The number of newline characters in [s]. *)
Fixpoint count_newlines (s : string) : nat :=
  match s with
  | EmptyString => 0
  | String c s' =>
      (if Ascii.eqb c (ascii_of_nat 10) then 1 else 0) + count_newlines s'
  end.

(** What a run wrote to stdout. *)
Definition written {A} (r : option (A * world)) : option string :=
  match r with
  | Some (_, w) => Some (stdout w)
  | None => None
  end.

(** What a run leaves on the streams and in the log of reads. *)
Definition effects {A} (r : option (A * world))
    : option (string * list string * list nat) :=
  match r with
  | Some (_, w) => Some (stdout w, stderr w, loads w)
  | None => None
  end.

(** A node with the record fields of [r] and the link of [n]. *)
Definition with_rr (r : ns_rr) (n : rr_response) : rr_response :=
  mk_rr_response (rr_type r) (rr_class r) (rr_ttl r) (rr_rdlength r)
                 (rr_rdata r) (next n).

(** ** A concrete environment for the examples *)

Module Demo.
Import Byte.

(** A matcher for [hostname_pattern]: one or more dot-terminated labels,
    then two or more letters. A label starts and ends with a letter or
    digit; in between, the bracket expression also admits the hyphen and
    the backslash. *)
Definition is_alpha (c : ascii) : bool :=
  let n := nat_of_ascii c in
  ((65 <=? n) && (n <=? 90) || (97 <=? n) && (n <=? 122))%nat.
Definition is_alnum (c : ascii) : bool :=
  let n := nat_of_ascii c in
  (is_alpha c || (48 <=? n) && (n <=? 57))%nat.
Definition is_inner (c : ascii) : bool :=
  is_alnum c || Ascii.eqb c "\" || Ascii.eqb c "-".

Fixpoint split_dots (s : string) : list (list ascii) :=
  match s with
  | EmptyString => [[]]
  | String c s' =>
      if Ascii.eqb c "." then [] :: split_dots s'
      else match split_dots s' with
           | p :: ps => (c :: p) :: ps
           | [] => [[c]]
           end
  end.

Definition label_ok (l : list ascii) : bool :=
  match l with
  | [] => false
  | [c] => is_alnum c
  | c :: r => is_alnum c && is_alnum (List.last r c) && forallb is_inner (removelast r)
  end.

Definition tld_ok (l : list ascii) : bool :=
  (2 <=? length l)%nat && forallb is_alpha l.

Definition hostname_match (s : string) : bool :=
  match rev (split_dots s) with
  | tld :: (_ :: _) as labels => tld_ok tld && forallb label_ok labels
  | _ => false
  end.

(** The answer buffer: 192.0.2.1, then "www" with its NUL, then 01 ab,
    then 93.184.216.34. *)
Definition answer : list byte :=
  [xc0; x00; x02; x01; "w"; "w"; "w"; x00; x01; xab; x5d; xb8; xd8; x22]%byte.

(** Three records: an address, a canonical name, a record of type 99. *)
Definition rr_a : ns_rr := mk_ns_rr 1 1 300 4 (Some 0%nat).
Definition rr_cname : ns_rr := mk_ns_rr 5 1 600 4 (Some 4%nat).
Definition rr_99 : ns_rr := mk_ns_rr 99 1 6 2 (Some 8%nat).

(** What the [ns_rr] of the decode loop holds when an extraction fails. *)
Definition rr_garbage : ns_rr := mk_ns_rr 77 3 9 0 None.

(** A block as malloc returns it when the memory reads as zero. *)
Definition zero_block : rr_response := mk_rr_response 0 0 0 0 None None.

(** A parsed message is the list of what [ns_parserr] gives per index. The
    resolver answers every query with [answer]; malloc returns blocks that
    hold [block]. *)
Definition environment (block : rr_response) (msg0 : list (Z * ns_rr)) : libc := {|
  ns_msg := list (Z * ns_rr);
  malloc_rr := fun _ => Some block;
  malloc_uchar := fun n => Some (repeat x00 (N.to_nat n));
  regcomp := fun _ _ => 0;
  regexec := fun _ hostname => if hostname_match hostname then 0 else REG_NOMATCH;
  res_query := fun _ _ _ _ _ => (Z.of_nat (length answer), answer);
  ns_initparse := fun _ _ => (0, msg0);
  ns_msg_count := fun msg _ => Z.of_nat (length msg);
  ns_parserr := fun msg _ i =>
    match msg !! Z.to_nat i with
    | Some (r, rr) => (r, msg, rr)
    | None => (-1, msg, rr_garbage)
    end
|}.

Definition resolver : list (Z * ns_rr) -> libc := environment zero_block.

(** A block as malloc may return it from recycled memory: the link field
    holds a stale address. *)
Definition stale_block : rr_response :=
  mk_rr_response 0 0 0 0 None (Some 99%positive).

Definition msg_ok : list (Z * ns_rr) := [(0, rr_a); (0, rr_cname); (0, rr_99)].
Definition msg_bad : list (Z * ns_rr) := [(0, rr_a); (-1, rr_garbage); (0, rr_99)].

Definition start : world := mk_world ∅ [] "" [] [].

(** A world with the answer buffer and an empty list at address 1. *)
Definition ready : world := mk_world {[ 1%positive := zero_block ]} answer "" [] [].

(** A hostname of 254 characters that matches [hostname_pattern]; its
    first 253 characters end in ".co". *)
Definition long_hostname : string :=
  String.concat "" (repeat "ab."%string 83) +:+ "x.com".

(** Exit status, stdout and stderr of a run of [main]. *)
Definition outcome (r : option (Z * world)) : option (Z * string * list string) :=
  match r with
  | Some (status, w) => Some (status, stdout w, stderr w)
  | None => None
  end.

(** The RecordList behind the head at address 1 and stderr, after a decode
    pass. *)
Definition decoded {A} (r : option (A * world))
    : option (option (list ns_rr) * list string) :=
  match r with
  | Some (_, w) => Some (RecordList (heap w) (Some 1%positive), stderr w)
  | None => None
  end.

(** Exit status and stderr of a run of [main]. *)
Definition status (r : option (Z * world)) : option (Z * list string) :=
  match r with
  | Some (st, w) => Some (st, stderr w)
  | None => None
  end.

End Demo.

(** ** Frames

    [preserves R m]: whenever [m] returns, the world it leaves is related
    by [R] to the world it started in. *)
Definition preserves (R : world -> world -> Prop) {A} (m : M A) : Prop :=
  forall w a w', m w = Some (a, w') -> R w w'.

(** The answer buffer, stdout and the log of payload reads are as before:
    what the list operations and the decoder leave alone. *)
Definition same_io (w w' : world) : Prop :=
  packet w' = packet w /\ stdout w' = stdout w /\ loads w' = loads w.

(** The heap and the answer buffer are as before, and the streams and the
    log of reads have only grown: what the renderer leaves alone. *)
Definition only_output (w w' : world) : Prop :=
  heap w' = heap w /\ packet w' = packet w /\
  (exists text, stdout w' = stdout w +:+ text) /\
  (exists errs, stderr w' = stderr w ++ errs) /\
  (exists reads, loads w' = loads w ++ reads).

(** The node that carries the record [r], with a null link. *)
Definition rr_node (r : ns_rr) : rr_response :=
  mk_rr_response (rr_type r) (rr_class r) (rr_ttl r) (rr_rdlength r)
                 (rr_rdata r) None.

(** What [isvalidhostname] writes to stderr for [hostname]. *)
Definition isvalidhostname_errors `{L : libc} (hostname : string) : list string :=
  (if regcomp hostname_pattern REG_EXTENDED =? 0 then []
   else ["Could not compile regex"%string])
  ++ (if regexec hostname_pattern hostname =? REG_NOMATCH
      then ["Hostname is invalid"%string]
      else if regexec hostname_pattern hostname =? 0 then []
      else ["Could not execute regex"%string]).

(** The last lines of [main], from the creation of the list on. *)
Definition main_tail `{L : libc} (msg : ns_msg) (ancount : Z) : M Z :=
  response_list <- rr_response_new ;;
  rr_response_parse response_list msg ancount ;;
  printf ("Response:" +:+ newline) ;;
  rr_pretty_print_all response_list ;;
  rr_response_free response_list ;;
  modify (set_packet []) ;;
  ret 0.

(** The world [main] is in when it has printed which hostname it resolves
    and the query has filled the answer buffer. *)
Definition after_query `{L : libc} (argv1 : string) (buf : list Byte.byte) (w : world) : world :=
  mk_world (heap w) buf
    (stdout w +:+ ("Resolving hostname " +:+ strncpy_hostname argv1 +:+ newline))
    (stderr w
     ++ (if 253 <? strlen argv1 then ["Hostname is too long"%string] else [])
     ++ isvalidhostname_errors argv1)
    (loads w).

(** ** More environments for the examples *)

Module Cases.
Import Byte.

(** An environment in which malloc has no memory left for list nodes. *)
Definition out_of_memory (msg0 : list (Z * ns_rr)) : libc := {|
  ns_msg := list (Z * ns_rr);
  malloc_rr := fun _ => None;
  malloc_uchar := malloc_uchar (libc := Demo.resolver msg0);
  regcomp := regcomp (libc := Demo.resolver msg0);
  regexec := regexec (libc := Demo.resolver msg0);
  res_query := res_query (libc := Demo.resolver msg0);
  ns_initparse := ns_initparse (libc := Demo.resolver msg0);
  ns_msg_count := ns_msg_count (libc := Demo.resolver msg0);
  ns_parserr := ns_parserr (libc := Demo.resolver msg0)
|}.

(** An environment in which the query fails. *)
Definition offline : libc := {|
  ns_msg := list (Z * ns_rr);
  malloc_rr := malloc_rr (libc := Demo.resolver []);
  malloc_uchar := malloc_uchar (libc := Demo.resolver []);
  regcomp := regcomp (libc := Demo.resolver []);
  regexec := regexec (libc := Demo.resolver []);
  res_query := fun _ _ _ buf _ => (-1, buf);
  ns_initparse := ns_initparse (libc := Demo.resolver []);
  ns_msg_count := ns_msg_count (libc := Demo.resolver []);
  ns_parserr := ns_parserr (libc := Demo.resolver [])
|}.

(** A canonical name in compressed form: the label "www" and a pointer,
    no NUL among its 6 bytes; the buffer goes on with "x" and a NUL. *)
Definition compressed : list byte :=
  [x03; "w"; "w"; "w"; xc0; x0c; "x"; x00]%byte.
Definition rr_compressed : ns_rr := mk_ns_rr 5 1 600 6 (Some 0%nat).

(** A world with the answer buffer of [Demo] and a list of one record, the
    address record, behind the head at address 1. *)
Definition one_record : world :=
  mk_world (<[ 2%positive := rr_node Demo.rr_a ]>
              {[ 1%positive := set_next Demo.zero_block (Some 2%positive) ]})
           Demo.answer "" [] [].

(** The same list with a third node, at address 3, that is not linked. *)
Definition spare : world :=
  mk_world (<[ 3%positive := rr_node Demo.rr_99 ]> (heap one_record))
           Demo.answer "" [] [].

(** A world whose answer buffer is [compressed]. *)
Definition cname_world : world := mk_world ∅ compressed "" [] [].

End Cases.

(** ** Recycled memory and a name with a ten-character label *)

Module Recycled.
Import Byte.

(** A block as malloc may return it from recycled memory: the link field
    still holds the address, 5, of a node that is live. *)
Definition recycled_block : rr_response :=
  mk_rr_response 0 0 0 0 None (Some 5%positive).

Definition allocator : list (Z * ns_rr) -> libc :=
  Demo.environment recycled_block.

(** A world with the answer buffer of [Demo], an empty list at address 1
    and one more live node, at address 5, that carries the record of type
    99. *)
Definition leftover : world :=
  mk_world (<[ 5%positive := rr_node Demo.rr_99 ]>
              {[ 1%positive := Demo.zero_block ]})
           Demo.answer "" [] [].

(** Answers of one and of two records, all extracted without failure. *)
Definition msg_one : list (Z * ns_rr) := [(0, Demo.rr_a)].
Definition msg_two : list (Z * ns_rr) := [(0, Demo.rr_a); (0, Demo.rr_cname)].

(** The number of records in the RecordList behind the head at address 1
    after a decode pass. *)
Definition record_count {A} (r : option (A * world)) : option (option nat) :=
  match r with
  | Some (_, w) =>
      Some (match RecordList (heap w) (Some 1%positive) with
            | Some rs => Some (length rs)
            | None => None
            end)
  | None => None
  end.

(** The name cloudfront.net as it stands in an answer: the length of its
    first label, 10, is the byte 0x0a. *)
Definition cloudfront : list byte :=
  [x0a; "c"; "l"; "o"; "u"; "d"; "f"; "r"; "o"; "n"; "t";
   x03; "n"; "e"; "t"; x00]%byte.
Definition rr_cloudfront : ns_rr := mk_ns_rr 5 1 600 16 (Some 0%nat).
Definition cloudfront_world : world := mk_world ∅ cloudfront "" [] [].

(** The list part of [main]: create the list, decode, render. *)
Definition list_run `{L : libc} (msg : ns_msg) (ancount : Z) : M unit :=
  response_list <- rr_response_new ;;
  rr_response_parse response_list msg ancount ;;
  rr_pretty_print_all response_list.

End Recycled.

(** * Verification *)

(** ** Lists in the heap *)

Lemma is_list_inj h p c1 c2 : is_list h p c1 -> is_list h p c2 -> c1 = c2.
Proof.
  intros H1. revert c2.
  induction H1 as [|l n cells Hl _ IH]; intros c2 H2; inversion H2; subst.
  - done.
  - assert (n0 = n) as -> by congruence. f_equal. by apply IH.
Qed.

Lemma is_list_tail h p c1 l n c2 :
  is_list h p (c1 ++ (l, n) :: c2) -> is_list h (Some l) ((l, n) :: c2).
Proof.
  revert p. induction c1 as [|c c1 IH]; intros p H; simpl in H.
  - inversion H; subst. by constructor.
  - inversion H; subst. eauto.
Qed.

Lemma is_list_NoDup h p cells : is_list h p cells -> NoDup cells.*1.
Proof.
  induction 1 as [|l n cells Hl Hc IH]; simpl; constructor; [|done].
  intros Hin. apply list_elem_of_fmap in Hin as [[l' n'] [-> Hin]].
  apply list_elem_of_split in Hin as (c1 & c2 & ->). simpl in *.
  pose proof (is_list_tail _ _ _ _ _ _ Hc) as Ht.
  pose proof (is_list_inj _ _ _ _ Ht (is_list_cons _ _ _ _ Hl Hc)) as Heq.
  apply (f_equal length) in Heq. simpl in Heq.
  rewrite length_app in Heq. simpl in Heq. lia.
Qed.

Lemma is_list_dom h p cells l :
  is_list h p cells -> l ∈ cells.*1 -> l ∈ dom h.
Proof.
  induction 1 as [|l' n cells Hl _ IH]; simpl.
  - by intros ?%elem_of_nil.
  - intros [->|?]%elem_of_cons; [|by auto]. apply elem_of_dom. eauto.
Qed.

Lemma is_list_length h p cells : is_list h p cells -> (length cells <= size h)%nat.
Proof.
  intros H. rewrite <- (length_fmap fst cells), <- size_dom.
  rewrite <- (size_list_to_set (C := gset loc) cells.*1) by eauto using is_list_NoDup.
  apply subseteq_size. intros l Hl%elem_of_list_to_set. eauto using is_list_dom.
Qed.

Lemma is_list_insert_ne h p cells l x :
  is_list h p cells -> l ∉ cells.*1 -> is_list (<[l := x]> h) p cells.
Proof.
  induction 1 as [|l' n cells Hl _ IH]; simpl; intros Hnin.
  - constructor.
  - apply not_elem_of_cons in Hnin as [Hne Hnin]. constructor; [|by auto].
    by rewrite lookup_insert_ne.
Qed.

Lemma is_list_head h p cells :
  is_list h p cells -> cells <> [] -> exists l, p = Some l.
Proof. destruct 1; [done|eauto]. Qed.

Lemma is_list_last_null h p cells l n :
  is_list h p (cells ++ [(l, n)]) -> next n = None.
Proof.
  intros H%is_list_tail. inversion H as [|? ? ? _ Hn]; subst.
  inversion Hn; congruence.
Qed.

Lemma rr_of_set_next n new : rr_of (set_next n new) = rr_of n.
Proof. reflexivity. Qed.

(** Linking a fresh node behind the last one. *)
Lemma is_list_snoc h p cells l n new nn :
  is_list h p (cells ++ [(l, n)]) ->
  new ∉ (cells ++ [(l, n)]).*1 ->
  h !! new = Some nn ->
  next nn = None ->
  is_list (<[l := set_next n (Some new)]> h) p
          (cells ++ [(l, set_next n (Some new)); (new, nn)]).
Proof.
  intros H. pose proof (is_list_NoDup _ _ _ H) as Hnd. revert p H Hnd.
  induction cells as [|[l0 n0] cells IH]; intros p H Hnd Hnew Hnn Hnull;
    simpl in *; inversion H; subst.
  - apply not_elem_of_cons in Hnew as [Hne _].
    constructor; [by rewrite lookup_insert_eq|]. simpl.
    constructor; [by rewrite lookup_insert_ne|].
    rewrite Hnull. constructor.
  - apply not_elem_of_cons in Hnew as [Hne Hnew].
    apply NoDup_cons in Hnd as [Hl0 Hnd].
    constructor; [|by auto].
    rewrite lookup_insert_ne; [done|].
    intros ->. apply Hl0. rewrite fmap_app. simpl. set_solver.
Qed.

Lemma nodes_from_is_list h p cells fuel :
  is_list h p cells -> (length cells <= fuel)%nat ->
  nodes_from fuel h p = Some cells.*2.
Proof.
  intros H. revert fuel.
  induction H as [|l n cells Hl _ IH]; intros fuel Hf; simpl in *.
  - by destruct fuel.
  - destruct fuel as [|fuel]; [lia|]. simpl. rewrite Hl, IH by lia. done.
Qed.

(** ** The list operations *)

Section ListOps.
Context `{L : libc}.


Lemma rr_response_add_walk_spec w cells : forall p fuel l n,
  is_list (heap w) (Some p) (cells ++ [(l, n)]) ->
  (length cells < fuel)%nat ->
  rr_response_add_walk fuel (Some p) w = Some (Some l, w).
Proof.
  induction cells as [|[l0 n0] cells IH]; intros p fuel l n H Hf;
    (destruct fuel as [|fuel]; [simpl in Hf; lia|]);
    simpl in *; inversion H as [|? ? ? Hl Hrest]; subst;
    unfold bind, load; rewrite Hl.
  - by rewrite (is_list_last_null _ _ [] _ _ H).
  - destruct (is_list_head _ _ _ Hrest) as [q Hq].
    { by destruct cells. }
    rewrite Hq in *. eapply IH; [done|lia].
Qed.

Lemma rr_response_add_spec w head cells l n new :
  is_list (heap w) (Some head) (cells ++ [(l, n)]) ->
  rr_response_add (Some head) new w
  = Some (tt, set_heap (<[l := set_next n new]> (heap w)) w).
Proof.
  intros H. unfold rr_response_add, bind at 1, ret, bind at 1, get_world.
  unfold bind at 1.
  rewrite (rr_response_add_walk_spec w cells head _ l n H).
  2:{ pose proof (is_list_length _ _ _ H) as Hlen.
      rewrite length_app in Hlen. simpl in Hlen. lia. }
  apply is_list_tail in H. inversion H as [|? ? ? Hl _]; subst.
  unfold bind, load, store. rewrite Hl. simpl. by rewrite Hl.
Qed.

Lemma rr_response_new_spec w junk :
  malloc_rr (heap w) = Some junk ->
  rr_response_new w
  = Some (Some (fresh (dom (heap w))),
          set_heap (<[fresh (dom (heap w)) := junk]> (heap w)) w).
Proof. intros H. unfold rr_response_new, bind, get_world. by rewrite H. Qed.

Lemma cons_snoc {A} (x : A) (xs : list A) :
  exists front last, x :: xs = front ++ [last].
Proof.
  revert x. induction xs as [|y xs IH]; intros x.
  - by exists [], x.
  - destruct (IH y) as (front & last & ->). by exists (x :: front), last.
Qed.

(** One iteration of the decode loop after the extraction: allocate a node,
    fill in its record fields and link it behind the last node. *)
Lemma append_node_spec {K} (k : M K) w head s cells ty cl tl len dat :
  malloc_clean ->
  is_list (heap w) (Some head) ((head, s) :: cells) ->
  exists h' s' cells',
    (new <- rr_response_new ;;
     n <- load new ;;
     store new (mk_rr_response ty cl tl len dat (next n)) ;;
     rr_response_add (Some head) new ;;
     k) w = k (set_heap h' w) /\
    is_list h' (Some head) ((head, s') :: cells') /\
    rr_of s' = rr_of s /\
    rr_of <$> cells'.*2 = (rr_of <$> cells.*2) ++ [mk_ns_rr ty cl tl len dat].
Proof.
  intros Hclean Hlist.
  destruct (Hclean (heap w)) as (junk & Hjunk & Hnull).
  set (l := fresh (dom (heap w))).
  set (node := mk_rr_response ty cl tl len dat None).
  assert (Hfresh : l ∉ ((head, s) :: cells).*1).
  { intros Hin. apply (is_fresh (dom (heap w))). eauto using is_list_dom. }
  destruct (cons_snoc (head, s) cells) as (front & [ll nl] & Hsplit).
  rewrite Hsplit in Hlist, Hfresh.
  assert (Hlist2 : is_list (<[l := node]> (<[l := junk]> (heap w))) (Some head)
                           (front ++ [(ll, nl)])).
  { apply is_list_insert_ne; [apply is_list_insert_ne|]; done. }
  exists (<[ll := set_next nl (Some l)]> (<[l := node]> (<[l := junk]> (heap w)))).
  assert (Hrun : (new <- rr_response_new ;;
     n <- load new ;;
     store new (mk_rr_response ty cl tl len dat (next n)) ;;
     rr_response_add (Some head) new ;;
     k) w = k (set_heap (<[ll := set_next nl (Some l)]>
                           (<[l := node]> (<[l := junk]> (heap w)))) w)).
  { unfold bind at 1. rewrite (rr_response_new_spec w junk Hjunk). fold l.
    unfold bind at 1, load. simpl. rewrite lookup_insert_eq.
    unfold bind at 1, store. simpl. rewrite lookup_insert_eq, Hnull. fold node.
    unfold bind at 1.
    by erewrite (rr_response_add_spec _ head front ll nl (Some l)) by exact Hlist2. }
  pose proof (is_list_snoc _ _ _ _ _ l node Hlist2 Hfresh
                (lookup_insert_eq _ _ _) eq_refl) as Hsnoc.
  destruct front as [|c front]; simplify_eq/=.
  - by exists (set_next nl (Some l)), [(l, node)].
  - exists s, (front ++ [(ll, set_next nl (Some l)); (l, node)]).
    repeat split; try done.
    rewrite !fmap_app. simpl. by rewrite <- app_assoc.
Qed.

(** The decode loop: it appends one node per index, whatever the status of
    the extraction, and touches nothing but the heap and stderr. *)
Lemma rr_response_parse_loop_spec k : forall w head s cells msg i,
  malloc_clean ->
  is_list (heap w) (Some head) ((head, s) :: cells) ->
  exists msg' h' s' cells',
    rr_response_parse_loop k (Some head) msg i w
    = Some (msg', mk_world h' (packet w) (stdout w)
                    (stderr w ++ parse_errors (extractions k msg i)) (loads w)) /\
    is_list h' (Some head) ((head, s') :: cells') /\
    rr_of s' = rr_of s /\
    rr_of <$> cells'.*2 = (rr_of <$> cells.*2) ++ (extractions k msg i).*2.
Proof.
  induction k as [|k IH]; intros w head s cells msg i Hclean Hlist.
  - exists msg, (heap w), s, cells. simpl. unfold ret.
    rewrite !app_nil_r. by destruct w.
  - simpl. destruct (ns_parserr msg ns_s_an i) as [[r msg1] rr] eqn:Hrr.
    set (w1 := if r <? 0 then put_stderr "Could not parse response" w else w).
    assert (Hw1 : heap w1 = heap w) by (unfold w1; by destruct (r <? 0)).
    unfold bind at 1.
    replace ((if r <? 0 then perror "Could not parse response" else ret tt) w)
      with (Some (tt, w1)) by (unfold w1; by destruct (r <? 0)).
    rewrite <- Hw1 in Hlist.
    destruct (append_node_spec (rr_response_parse_loop k (Some head) msg1 (i + 1))
                w1 head s cells (ns_rr_type rr) (ns_rr_class rr) (ns_rr_ttl rr)
                (ns_rr_rdlen rr) (ns_rr_rdata rr) Hclean Hlist)
      as (h' & s' & cells' & Hrun & Hlist' & Hs & Hcells).
    rewrite Hrun.
    destruct (IH (set_heap h' w1) head s' cells' msg1 (i + 1) Hclean Hlist')
      as (msg' & h'' & s'' & cells'' & Hloop & Hlist'' & Hs' & Hcells').
    exists msg', h'', s'', cells''. repeat split; [|done|congruence|].
    + rewrite Hloop. unfold w1, parse_errors. simpl.
      destruct (r <? 0); simpl; [by rewrite <- app_assoc|done].
    + rewrite Hcells', Hcells. simpl. rewrite <- app_assoc. by destruct rr.
Qed.

End ListOps.

Lemma oblivious_ret {A} (a : A) : oblivious (ret a).
Proof. done. Qed.

Lemma oblivious_fault {A} : oblivious (@fault A).
Proof. done. Qed.

Lemma oblivious_bind {A B} (m : M A) (k : A -> M B) :
  oblivious m -> (forall a, oblivious (k a)) -> oblivious (bind m k).
Proof.
  intros Hm Hk h w. unfold bind. rewrite Hm.
  destruct (m w) as [[a w']|]; [apply Hk|done].
Qed.

Lemma oblivious_printf s : oblivious (printf s).
Proof. done. Qed.

Lemma oblivious_perror s : oblivious (perror s).
Proof. done. Qed.

Lemma oblivious_log_load off : oblivious (modify (log_load off)).
Proof. done. Qed.

Lemma oblivious_get_packet : oblivious get_packet.
Proof. done. Qed.

Lemma oblivious_load_uchar p j : oblivious (load_uchar p j).
Proof.
  intros h w. unfold load_uchar. destruct p as [off|]; [|done].
  destruct (j <? 0); [done|]. simpl.
  by destruct (packet w !! (off + Z.to_nat j)%nat).
Qed.

Create HintDb oblivious.
#[export] Hint Resolve oblivious_ret oblivious_fault oblivious_printf
  oblivious_perror oblivious_log_load oblivious_get_packet
  oblivious_load_uchar : oblivious.

Ltac oblivious_step :=
  match goal with
  | |- oblivious (bind _ _) => apply oblivious_bind; [|intros ?]
  | |- oblivious (if ?b then _ else _) => destruct b
  | |- oblivious (match ?x with _ => _ end) => destruct x
  | |- oblivious _ => solve [auto with oblivious]
  end.

Lemma oblivious_read_cstring bs : forall off, oblivious (read_cstring off bs).
Proof. induction bs as [|b bs IH]; intros off; simpl; repeat oblivious_step. Qed.

Lemma oblivious_load_cstring p : oblivious (load_cstring p).
Proof.
  unfold load_cstring. repeat oblivious_step. apply oblivious_read_cstring.
Qed.

Lemma oblivious_hexdump_loop k p : forall j, oblivious (hexdump_loop k p j).
Proof. induction k as [|k IH]; intros j; simpl; repeat oblivious_step. Qed.

Lemma oblivious_rr_pretty_print n : oblivious (rr_pretty_print n).
Proof.
  unfold rr_pretty_print.
  repeat oblivious_step;
    auto using oblivious_load_cstring, oblivious_hexdump_loop.
Qed.

Lemma rr_pretty_print_heap n w u w' :
  rr_pretty_print n w = Some (u, w') -> heap w' = heap w.
Proof.
  intros H. pose proof (oblivious_rr_pretty_print n (heap w) w) as Ho.
  replace (set_heap (heap w) w) with w in Ho by by destruct w.
  rewrite H in Ho. by injection Ho as ->.
Qed.

(** The renderer reads the record fields of a node, not its link. *)
Lemma rr_pretty_print_ext n n' :
  rr_of n = rr_of n' -> rr_pretty_print n = rr_pretty_print n'.
Proof. destruct n, n'. unfold rr_of. simpl. by intros [= -> -> -> -> ->]. Qed.


Lemma rr_pretty_print_loop_spec h p cells :
  is_list h p cells ->
  forall fuel w, heap w = h -> (length cells <= fuel)%nat ->
  rr_pretty_print_loop fuel p w = print_records cells.*2 w.
Proof.
  induction 1 as [|l n cells Hl _ IH]; intros fuel w Hw Hf.
  - by destruct fuel.
  - destruct fuel as [|fuel]; [simpl in Hf; lia|]. simpl in *.
    unfold bind at 1, load. rewrite Hw, Hl. unfold bind.
    destruct (rr_pretty_print n w) as [[u w']|] eqn:Hp; [|done].
    apply IH; [|lia]. apply rr_pretty_print_heap in Hp. congruence.
Qed.

(** The renderer skips the head and renders the nodes behind it. *)
Lemma rr_pretty_print_all_spec w head s cells :
  is_list (heap w) (Some head) ((head, s) :: cells) ->
  rr_pretty_print_all (Some head) w = print_records cells.*2 w.
Proof.
  intros H. pose proof (is_list_length _ _ _ H) as Hlen.
  inversion H as [|? ? ? Hl Hrest]; subst.
  unfold rr_pretty_print_all, bind, ret, load, get_world. rewrite Hl.
  apply (rr_pretty_print_loop_spec (heap w)); [done..|simpl in Hlen; lia].
Qed.

(** ** What the renderer writes for one record *)

Lemma append_assoc (a b c : string) : (a +:+ b) +:+ c = a +:+ (b +:+ c).
Proof.
  induction a as [|x a IH]; [done|].
  change (String x ((a +:+ b) +:+ c) = String x (a +:+ (b +:+ c))).
  by rewrite IH.
Qed.

Lemma append_nil_r (a : string) : a +:+ "" = a.
Proof.
  induction a as [|x a IH]; [done|].
  change (String x (a +:+ "") = String x a). by rewrite IH.
Qed.

Arguments load_uchar : simpl never.
Arguments load_cstring : simpl never.

Ltac run_printf :=
  unfold bind, printf, perror, modify, ret, put_stdout, put_stderr; simpl.

Ltac world_eq :=
  rewrite ?append_assoc, ?append_nil_r, <- ?app_assoc, ?app_nil_r;
  try reflexivity.

Lemma drop_cons_inv {A} (l : list A) k x r :
  drop k l = x :: r -> l !! k = Some x /\ drop (S k) l = r.
Proof.
  revert k. induction l as [|y l IH]; intros [|k] H; simpl in *; try done.
  - rewrite drop_0. by injection H as -> ->.
  - by apply IH.
Qed.

Lemma load_uchar_take w off j bs b :
  take (length bs) (drop off (packet w)) = bs ->
  0 <= j ->
  bs !! Z.to_nat j = Some b ->
  load_uchar (Some off) j w = Some (b, log_load (off + Z.to_nat j)%nat w).
Proof.
  intros Htake Hj Hb. unfold load_uchar.
  assert (Hlt : (Z.to_nat j < length bs)%nat) by eauto using lookup_lt_Some.
  replace (j <? 0) with false by (symmetry; apply Z.ltb_ge; lia).
  rewrite <- Htake, lookup_take_lt, lookup_drop in Hb by done.
  by rewrite Hb.
Qed.

Lemma read_cstring_spec bs : forall off rest w,
  Byte.x00 ∉ bs ->
  read_cstring off (bs ++ Byte.x00 :: rest) w
  = Some (string_of_list_byte bs,
          mk_world (heap w) (packet w) (stdout w) (stderr w)
                   (loads w ++ seq off (S (length bs)))).
Proof.
  induction bs as [|b bs IH]; intros off rest w Hnul; simpl.
  - done.
  - apply not_elem_of_cons in Hnul as [Hb Hnul].
    destruct (Byte.eqb b Byte.x00) eqn:Heq.
    { apply Byte.byte_dec_bl in Heq. congruence. }
    unfold bind at 1, modify. unfold bind. rewrite IH by done.
    unfold ret. simpl. by rewrite <- app_assoc.
Qed.

Lemma hexdump_loop_spec bs : forall w off j,
  0 <= j ->
  take (length bs) (drop (off + Z.to_nat j) (packet w)) = bs ->
  hexdump_loop (length bs) (Some off) j w
  = Some (tt, mk_world (heap w) (packet w) (stdout w +:+ hex_bytes bs) (stderr w)
                (loads w ++ seq (off + Z.to_nat j) (length bs))).
Proof.
  induction bs as [|b bs IH]; intros w off j Hj Htake; simpl.
  - unfold ret. rewrite append_nil_r, app_nil_r. by destruct w.
  - simpl in Htake.
    destruct (drop (off + Z.to_nat j) (packet w)) as [|b' l] eqn:Hd; [done|].
    injection Htake as -> Htake.
    apply drop_cons_inv in Hd as [Hb Hd].
    unfold bind at 1, load_uchar.
    replace (j <? 0) with false by (symmetry; apply Z.ltb_ge; lia).
    rewrite Hb. run_printf. rewrite IH; [|lia|].
    + simpl. replace (Z.to_nat (j + 1)) with (S (Z.to_nat j)) by lia.
      rewrite Nat.add_succ_r. world_eq.
    + simpl. replace (Z.to_nat (j + 1)) with (S (Z.to_nat j)) by lia.
      by rewrite Nat.add_succ_r, Hd.
Qed.

Lemma one_line_append a b : one_line (a +:+ b) = one_line a && one_line b.
Proof.
  induction a as [|x a IH]; [done|].
  change (one_line (String x (a +:+ b)) = one_line (String x a) && one_line b).
  simpl. rewrite IH. by rewrite andb_assoc.
Qed.

Lemma one_line_uint (d : Decimal.uint) :
  one_line (NilEmpty.string_of_uint d) = true.
Proof. induction d; simpl; done. Qed.

Lemma one_line_fmt_lu n : one_line (fmt_lu n) = true.
Proof.
  unfold fmt_lu, NilZero.string_of_uint.
  destruct (N.to_uint n) eqn:E; try done; rewrite <- E; apply one_line_uint.
Qed.

Lemma one_line_fmt_d z : one_line (fmt_d z) = true.
Proof.
  unfold fmt_d, NilZero.string_of_int.
  destruct (Z.to_int z) as [d|d]; unfold NilZero.string_of_uint;
    destruct d eqn:E; try done; rewrite <- E; simpl; apply one_line_uint.
Qed.

Lemma one_line_fmt_02x b : one_line (fmt_02x b) = true.
Proof. by destruct b. Qed.

Lemma one_line_hex_bytes bs : one_line (hex_bytes bs) = true.
Proof.
  induction bs as [|b bs IH]; [done|].
  change (hex_bytes (b :: bs)) with ((fmt_02x b +:+ " ") +:+ hex_bytes bs).
  by rewrite !one_line_append, one_line_fmt_02x, IH.
Qed.

Lemma one_line_rr_header n : one_line (rr_header n) = true.
Proof.
  unfold rr_header.
  by rewrite !one_line_append, !one_line_fmt_d, one_line_fmt_lu.
Qed.

Lemma existsb_nul_split (l : list Byte.byte) :
  existsb (Byte.eqb Byte.x00) l = true ->
  exists bs rest, l = bs ++ Byte.x00 :: rest /\ Byte.x00 ∉ bs.
Proof.
  induction l as [|b l IH]; simpl; [done|].
  destruct (Byte.eqb Byte.x00 b) eqn:Heq; simpl.
  - intros _. apply Byte.byte_dec_bl in Heq as <-.
    exists [], l. split; [done|]. apply not_elem_of_nil.
  - intros (bs & rest & -> & Hnul)%IH. exists (b :: bs), rest.
    split; [done|]. apply not_elem_of_cons. split; [|done].
    by apply Byte.eqb_false.
Qed.

Lemma length_take_drop {A} (l : list A) off k :
  (off + k <= length l)%nat -> length (take k (drop off l)) = k.
Proof. intros H. rewrite length_take, length_drop. lia. Qed.

Lemma rr_pretty_print_a w n off b0 b1 b2 b3 :
  type n = ns_t_a -> rdlength n = 4 -> rdata n = Some off ->
  take 4 (drop off (packet w)) = [b0; b1; b2; b3] ->
  rr_pretty_print n w
  = Some (tt, mk_world (heap w) (packet w)
                (stdout w +:+ rr_header n +:+ "RData: "
                 +:+ fmt_d_uchar b0 +:+ "." +:+ fmt_d_uchar b1 +:+ "."
                 +:+ fmt_d_uchar b2 +:+ "." +:+ fmt_d_uchar b3 +:+ newline)
                (stderr w)
                (loads w ++ [off; off + 1; off + 2; off + 3]%nat)).
Proof.
  intros Ht Hlen Hp Hbs. unfold rr_pretty_print, rr_header.
  rewrite Ht, Hlen, Hp. simpl.
  pose proof (fun w j b => load_uchar_take w off j [b0; b1; b2; b3] b) as Hld.
  run_printf.
  rewrite (Hld _ 0 b0) by done. simpl.
  rewrite (Hld _ 1 b1) by done. simpl.
  rewrite (Hld _ 2 b2) by done. simpl.
  rewrite (Hld _ 3 b3) by done. simpl.
  change (Z.to_nat 0) with 0%nat. change (Z.to_nat 1) with 1%nat.
  change (Z.to_nat 2) with 2%nat. change (Z.to_nat 3) with 3%nat.
  rewrite Nat.add_0_r. world_eq.
Qed.

Lemma rr_pretty_print_a_invalid w n :
  type n = ns_t_a -> rdlength n <> 4 ->
  rr_pretty_print n w
  = Some (tt, mk_world (heap w) (packet w)
                (stdout w +:+ rr_header n +:+ "Invalid A record length" +:+ newline)
                (stderr w ++ rdata_null_error n)
                (loads w)).
Proof.
  intros Ht Hlen. unfold rr_pretty_print, rr_header, rdata_null_error.
  rewrite Ht. simpl.
  apply Z.eqb_neq in Hlen. rewrite Hlen.
  destruct (rdata n); run_printf; world_eq.
Qed.

Lemma rr_pretty_print_cname w n off bs rest :
  type n = ns_t_cname -> rdata n = Some off ->
  drop off (packet w) = bs ++ Byte.x00 :: rest ->
  Byte.x00 ∉ bs ->
  rr_pretty_print n w
  = Some (tt, mk_world (heap w) (packet w)
                (stdout w +:+ rr_header n +:+ "RData (CNAME): "
                 +:+ string_of_list_byte bs +:+ newline)
                (stderr w)
                (loads w ++ seq off (S (length bs)))).
Proof.
  intros Ht Hp Hd Hnul. unfold rr_pretty_print, rr_header.
  rewrite Ht, Hp. simpl. run_printf.
  unfold load_cstring, bind, get_packet. simpl.
  rewrite Hd, read_cstring_spec by done. simpl. world_eq.
Qed.

Lemma rr_pretty_print_other w n off bs :
  type n <> ns_t_a -> type n <> ns_t_cname ->
  rdata n = Some off ->
  rdlength n = Z.of_nat (length bs) ->
  take (length bs) (drop off (packet w)) = bs ->
  rr_pretty_print n w
  = Some (tt, mk_world (heap w) (packet w)
                (stdout w +:+ rr_header n +:+ "RData (unknown type): "
                 +:+ hex_bytes bs +:+ newline)
                (stderr w)
                (loads w ++ seq off (length bs))).
Proof.
  intros Ha Hc Hp Hlen Htake. unfold rr_pretty_print, rr_header.
  apply Z.eqb_neq in Ha, Hc. rewrite Ha, Hc, Hp, Hlen, Nat2Z.id.
  run_printf. rewrite hexdump_loop_spec; [|done|by rewrite Nat.add_0_r].
  simpl. rewrite Nat.add_0_r. world_eq.
Qed.

Lemma rr_pretty_print_other_empty w n :
  type n <> ns_t_a -> type n <> ns_t_cname ->
  rdlength n <= 0 ->
  rr_pretty_print n w
  = Some (tt, mk_world (heap w) (packet w)
                (stdout w +:+ rr_header n +:+ "RData (unknown type): " +:+ newline)
                (stderr w ++ rdata_null_error n)
                (loads w)).
Proof.
  intros Ha Hc Hlen. unfold rr_pretty_print, rr_header, rdata_null_error.
  apply Z.eqb_neq in Ha, Hc. rewrite Ha, Hc.
  replace (Z.to_nat (rdlength n)) with 0%nat by lia.
  destruct (rdata n); run_printf; world_eq.
Qed.

Lemma until_nul_app bs rest :
  Byte.x00 ∉ bs -> until_nul (bs ++ Byte.x00 :: rest) = bs.
Proof.
  induction bs as [|b bs IH]; simpl; [done|].
  intros [Hb Hnul]%not_elem_of_cons.
  destruct (Byte.eqb b Byte.x00) eqn:Heq.
  { apply Byte.byte_dec_bl in Heq. congruence. }
  by rewrite IH.
Qed.

Lemma one_line_string_of_list_byte bs :
  existsb (Byte.eqb Byte.x0a) bs = false ->
  one_line (string_of_list_byte bs) = true.
Proof.
  unfold string_of_list_byte. induction bs as [|b bs IH]; [done|].
  simpl. intros [Hb Hbs]%orb_false_iff. rewrite IH by done.
  by destruct b.
Qed.

Lemma text_has_no_newline_other pkt n :
  type n <> ns_t_cname -> text_has_no_newline pkt n = true.
Proof. intros Hc%Z.eqb_neq. unfold text_has_no_newline. by rewrite Hc. Qed.

(** A renderable record is rendered, and what is written is the header,
    a data field and a newline; the data field has no newline of its own
    unless it is the text of a canonical name that holds one. *)
Lemma rr_pretty_print_line w n :
  renderable (packet w) n = true ->
  exists field w',
    rr_pretty_print n w = Some (tt, w') /\
    packet w' = packet w /\
    stdout w' = stdout w +:+ rr_header n +:+ field +:+ newline /\
    (text_has_no_newline (packet w) n = true -> one_line field = true).
Proof.
  unfold renderable, text_has_no_newline. intros Hr.
  destruct (type n =? ns_t_a) eqn:Ha; [apply Z.eqb_eq in Ha|apply Z.eqb_neq in Ha].
  - destruct (rdlength n =? 4) eqn:Hlen;
      [apply Z.eqb_eq in Hlen|apply Z.eqb_neq in Hlen].
    + destruct (rdata n) as [off|] eqn:Hp; [|done].
      apply Nat.leb_le in Hr.
      pose proof (length_take_drop _ _ _ Hr) as Hl.
      destruct (take 4 (drop off (packet w)))
        as [|b0 [|b1 [|b2 [|b3 [|? ?]]]]] eqn:Hbs; try done.
      exists ("RData: " +:+ fmt_d_uchar b0 +:+ "." +:+ fmt_d_uchar b1 +:+ "."
              +:+ fmt_d_uchar b2 +:+ "." +:+ fmt_d_uchar b3).
      eexists. split; [by eapply rr_pretty_print_a|]. simpl.
      split; [done|]. split; [world_eq|]. intros _.
      unfold fmt_d_uchar. by rewrite !one_line_append, !one_line_fmt_lu.
    + exists "Invalid A record length"%string.
      eexists. split; [by apply rr_pretty_print_a_invalid|]. done.
  - destruct (type n =? ns_t_cname) eqn:Hc;
      [apply Z.eqb_eq in Hc|apply Z.eqb_neq in Hc].
    + destruct (rdata n) as [off|] eqn:Hp; [|done].
      apply existsb_nul_split in Hr as (bs & rest & Hd & Hnul).
      exists ("RData (CNAME): " +:+ string_of_list_byte bs).
      eexists. split; [by eapply rr_pretty_print_cname|]. simpl.
      split; [done|]. split; [world_eq|].
      rewrite Hd, until_nul_app by done. intros Hnl%negb_true_iff.
      by rewrite one_line_append, one_line_string_of_list_byte.
    + destruct (rdlength n <=? 0) eqn:Hle;
        [apply Z.leb_le in Hle|apply Z.leb_gt in Hle]; simpl in Hr.
      * exists "RData (unknown type): "%string.
        eexists. split; [by apply rr_pretty_print_other_empty|]. done.
      * destruct (rdata n) as [off|] eqn:Hp; [|done].
        apply Nat.leb_le in Hr.
        pose proof (length_take_drop _ _ _ Hr) as Hl.
        exists ("RData (unknown type): "
                +:+ hex_bytes (take (Z.to_nat (rdlength n)) (drop off (packet w)))).
        eexists. split.
        { apply (rr_pretty_print_other w n off
                   (take (Z.to_nat (rdlength n)) (drop off (packet w))));
            rewrite ?Hl; try done. lia. }
        simpl. split; [done|]. split; [world_eq|]. intros _.
        by rewrite one_line_append, one_line_hex_bytes.
Qed.


(** ** The decode pass *)

Section Decode.
Context `{L : libc}.

Lemma RecordList_is_list h head s cells :
  is_list h (Some head) ((head, s) :: cells) ->
  RecordList h (Some head) = Some (rr_of <$> cells.*2).
Proof.
  intros H. pose proof (is_list_length _ _ _ H) as Hlen.
  inversion H as [|? ? ? Hl Hrest]; subst.
  unfold RecordList. rewrite Hl.
  rewrite (nodes_from_is_list _ _ cells) by (simpl in Hlen; done || lia).
  done.
Qed.






End Decode.

(** * The claims *)

Section DecodeClaims.
Context `{L : libc}.


End DecodeClaims.

(** C4. An address record of length 4 is rendered in dotted decimal: the
    four payload bytes, in buffer order, each as a decimal number. *)
Theorem a_record_dotted_decimal w n off b0 b1 b2 b3 :
  type n = ns_t_a -> rdlength n = 4 -> rdata n = Some off ->
  take 4 (drop off (packet w)) = [b0; b1; b2; b3] ->
  rr_pretty_print n w
  = Some (tt, mk_world (heap w) (packet w)
                (stdout w +:+ rr_header n +:+ "RData: "
                 +:+ fmt_d_uchar b0 +:+ "." +:+ fmt_d_uchar b1 +:+ "."
                 +:+ fmt_d_uchar b2 +:+ "." +:+ fmt_d_uchar b3 +:+ newline)
                (stderr w)
                (loads w ++ [off; off + 1; off + 2; off + 3]%nat)).
Proof.
  intros Ht Hlen Hp Hbs. unfold rr_pretty_print, rr_header.
  rewrite Ht, Hlen, Hp. simpl.
  pose proof (fun w j b => load_uchar_take w off j [b0; b1; b2; b3] b) as Hld.
  run_printf.
  rewrite (Hld _ 0 b0) by done. simpl.
  rewrite (Hld _ 1 b1) by done. simpl.
  rewrite (Hld _ 2 b2) by done. simpl.
  rewrite (Hld _ 3 b3) by done. simpl.
  change (Z.to_nat 0) with 0%nat. change (Z.to_nat 1) with 1%nat.
  change (Z.to_nat 2) with 2%nat. change (Z.to_nat 3) with 3%nat.
  rewrite Nat.add_0_r. world_eq.
Qed.

(** C6. An address record whose length is not 4 is rendered as the marker
    "Invalid A record length", and no payload byte is read at all. *)
Theorem a_record_invalid_length w n :
  type n = ns_t_a -> rdlength n <> 4 ->
  rr_pretty_print n w
  = Some (tt, mk_world (heap w) (packet w)
                (stdout w +:+ rr_header n +:+ "Invalid A record length" +:+ newline)
                (stderr w ++ rdata_null_error n)
                (loads w)).
Proof.
  intros Ht Hlen. unfold rr_pretty_print, rr_header, rdata_null_error.
  rewrite Ht. simpl.
  apply Z.eqb_neq in Hlen. rewrite Hlen.
  destruct (rdata n); run_printf; world_eq.
Qed.

(** C7, as amended. A record that is neither an address nor a canonical
    name is rendered as a dump of its [rdlength] payload bytes, in order,
    each as two lowercase hexadecimal digits followed by a space: a space
    also follows the last byte. *)
Theorem other_record_hex_dump w n off bs :
  type n <> ns_t_a -> type n <> ns_t_cname ->
  rdata n = Some off ->
  rdlength n = Z.of_nat (length bs) ->
  take (length bs) (drop off (packet w)) = bs ->
  rr_pretty_print n w
  = Some (tt, mk_world (heap w) (packet w)
                (stdout w +:+ rr_header n +:+ "RData (unknown type): "
                 +:+ hex_bytes bs +:+ newline)
                (stderr w)
                (loads w ++ seq off (length bs))).
Proof.
  intros Ha Hc Hp Hlen Htake. unfold rr_pretty_print, rr_header.
  apply Z.eqb_neq in Ha, Hc. rewrite Ha, Hc, Hp, Hlen, Nat2Z.id.
  run_printf. rewrite hexdump_loop_spec; [|done|by rewrite Nat.add_0_r].
  simpl. rewrite Nat.add_0_r. world_eq.
Qed.


(** C9, as amended. Every record is rendered as the four labeled fields
    type, class, ttl and data length, then the data field, then a newline.
    There is no newline in the labeled fields, so they stand on the line
    on which the data field begins. The data field holds no newline
    either, so that the record takes a single line, unless the record is
    a canonical name whose text, the bytes at [rdata] up to the first NUL,
    holds a newline. *)
Theorem record_line_header w n :
  renderable (packet w) n = true ->
  exists field w',
    rr_pretty_print n w = Some (tt, w') /\
    stdout w' = stdout w +:+ rr_header n +:+ field +:+ newline /\
    rr_header n = "Type: " +:+ fmt_d (type n) +:+ " Class: " +:+ fmt_d (class n)
                  +:+ " TTL: " +:+ fmt_lu (ttl n)
                  +:+ " RDLength: " +:+ fmt_d (rdlength n) +:+ " " /\
    one_line (rr_header n) = true /\
    (type n <> ns_t_cname -> one_line field = true) /\
    (text_has_no_newline (packet w) n = true -> one_line field = true).
Proof.
  intros Hr.
  destruct (rr_pretty_print_line w n Hr) as (field & w' & Hrun & _ & Hout & Hone).
  exists field, w'. repeat split; try done.
  - unfold rr_header. by rewrite !append_assoc.
  - apply one_line_rr_header.
  - intros Hc. by apply Hone, text_has_no_newline_other.
Qed.

(** ** The claims at concrete inputs *)

Import Demo.


Lemma a_record_dotted_decimal_witness :
  effects (rr_pretty_print (with_rr (mk_ns_rr 1 1 300 4 (Some 10%nat)) zero_block) ready)
  = Some ("Type: 1 Class: 1 TTL: 300 RDLength: 4 RData: 93.184.216.34" +:+ newline,
          [], [10; 11; 12; 13]%nat).
Proof.
  rewrite (a_record_dotted_decimal ready _ 10 Byte.x5d Byte.xb8 Byte.xd8 Byte.x22); reflexivity.
Defined.

Lemma a_record_invalid_length_witness :
  effects (rr_pretty_print (with_rr (mk_ns_rr 1 1 300 6 (Some 4%nat)) zero_block) ready)
  = Some ("Type: 1 Class: 1 TTL: 300 RDLength: 6 Invalid A record length" +:+ newline,
          [], []).
Proof.
  rewrite (a_record_invalid_length ready); [reflexivity|reflexivity|compute; congruence].
Defined.

Lemma other_record_hex_dump_witness :
  effects (rr_pretty_print (with_rr rr_99 zero_block) ready)
  = Some ("Type: 99 Class: 1 TTL: 6 RDLength: 2 RData (unknown type): 01 ab " +:+ newline,
          [], [8; 9]%nat).
Proof.
  rewrite (other_record_hex_dump ready _ 8 [Byte.x01; Byte.xab]);
    [reflexivity|compute; congruence|compute; congruence|reflexivity..].
Defined.

(** C7 as stated fails: the record of type 99 with the payload 01 ab is not
    rendered with the space-separated dump "01 ab" as its data field; a
    space follows the last byte. *)
Lemma hex_dump_not_space_separated :
  hex_separated [Byte.x01; Byte.xab] = "01 ab"%string /\
  written (rr_pretty_print (with_rr rr_99 zero_block) ready)
  = Some ("Type: 99 Class: 1 TTL: 6 RDLength: 2 RData (unknown type): 01 ab "
          +:+ newline) /\
  written (rr_pretty_print (with_rr rr_99 zero_block) ready)
  <> Some (stdout ready +:+ rr_header (with_rr rr_99 zero_block)
           +:+ "RData (unknown type): "
           +:+ hex_separated [Byte.x01; Byte.xab] +:+ newline).
Proof.
  split; [reflexivity|]. split; [reflexivity|].
  vm_compute. intros H. discriminate H.
Qed.


Lemma record_line_header_witness :
  exists field w',
    rr_pretty_print (with_rr rr_a zero_block) ready = Some (tt, w') /\
    stdout w' = stdout ready +:+ rr_header (with_rr rr_a zero_block)
                +:+ field +:+ newline /\
    rr_header (with_rr rr_a zero_block)
    = "Type: 1 Class: 1 TTL: 300 RDLength: 4 "%string /\
    one_line (rr_header (with_rr rr_a zero_block)) = true /\
    (type (with_rr rr_a zero_block) <> ns_t_cname -> one_line field = true) /\
    (text_has_no_newline (packet ready) (with_rr rr_a zero_block) = true ->
     one_line field = true).
Proof. apply (record_line_header ready (with_rr rr_a zero_block)). reflexivity. Defined.

(** C1 fails on the code. In a message of three answers whose record 1
    cannot be extracted, the decode pass does not abort: it reports the
    failure on stderr, appends a record for index 1 from what the [ns_rr]
    holds, goes on with index 2, and [main] renders the three records and
    exits with status 0. *)
Theorem decode_failure_not_aborted :
  (extractions (L := resolver msg_bad) 3 msg_bad 0).*1 = [0; -1; 0] /\
  decoded (rr_response_parse (L := resolver msg_bad) (Some 1%positive) msg_bad 3 ready)
  = Some (Some [rr_a; rr_garbage; rr_99], ["Could not parse response"%string]) /\
  outcome (main (L := resolver msg_bad) ["simple_lookup"; "example.com"]%string start)
  = Some (0,
          "Resolving hostname example.com" +:+ newline
          +:+ "Response:" +:+ newline
          +:+ "Type: 1 Class: 1 TTL: 300 RDLength: 4 RData: 192.0.2.1" +:+ newline
          +:+ "Type: 77 Class: 3 TTL: 9 RDLength: 0 RData (unknown type): " +:+ newline
          +:+ "Type: 99 Class: 1 TTL: 6 RDLength: 2 RData (unknown type): 01 ab " +:+ newline,
          ["Could not parse response"; "rdata is NULL"]%string).
Proof. repeat split; vm_compute; reflexivity. Qed.

(** C5 fails on the code. A hostname of 254 characters is reported as too
    long, and an answer count of 0 as "No answers found", but neither ends
    the run: [main] goes on and exits with status 0. *)
Theorem exit_status_zero_after_failures :
  strlen long_hostname = 254 /\
  status (main (L := resolver msg_ok) ["simple_lookup"; long_hostname]%string start)
  = Some (0, ["Hostname is too long"%string]) /\
  ns_msg_count (libc := resolver []) [] ns_s_an = 0 /\
  outcome (main (L := resolver []) ["simple_lookup"; "example.com"]%string start)
  = Some (0,
          "Resolving hostname example.com" +:+ newline +:+ "Response:" +:+ newline,
          ["No answers found"%string]).
Proof. repeat split; vm_compute; reflexivity. Qed.

(** C2 fails on the code. [rr_response_new] and the decode loop never write
    the link of a block they get from malloc. With a block from recycled
    memory whose link still holds the address of a live node, the decode
    pass for one answer, whose extraction succeeds, returns and leaves two
    records in the RecordList, not one. *)
Theorem decode_count_stale_link :
  (extractions (L := Recycled.allocator Recycled.msg_one) 1 Recycled.msg_one 0).*1
  = [0] /\
  Recycled.record_count
    (rr_response_parse (L := Recycled.allocator Recycled.msg_one)
       (Some 1%positive) Recycled.msg_one 1 Recycled.leftover)
  = Some (Some 2%nat).
Proof. split; vm_compute; reflexivity. Qed.

(** C3 fails on the code, by the same missing initialisation. With such a
    block the list after the decode pass for the one record [rr_a] is
    [rr_a] followed by the record of the node the stale link points at;
    after the pass for two records, both extracted, the links form a
    cycle and stand for no list at all. *)
Theorem decode_order_stale_link :
  extractions (L := Recycled.allocator Recycled.msg_one) 1 Recycled.msg_one 0
  = [(0, rr_a)] /\
  decoded (rr_response_parse (L := Recycled.allocator Recycled.msg_one)
             (Some 1%positive) Recycled.msg_one 1 Recycled.leftover)
  = Some (Some [rr_a; rr_99], []) /\
  extractions (L := Recycled.allocator Recycled.msg_two) 2 Recycled.msg_two 0
  = [(0, rr_a); (0, rr_cname)] /\
  decoded (rr_response_parse (L := Recycled.allocator Recycled.msg_two)
             (Some 1%positive) Recycled.msg_two 2 Recycled.leftover)
  = Some (None, []).
Proof. repeat split; vm_compute; reflexivity. Qed.

(** C9 as stated fails: the canonical name cloudfront.net is renderable,
    and its record is written on two lines, because the length byte of the
    label "cloudfront" is the newline character. *)
Lemma cname_text_breaks_line :
  renderable (packet Recycled.cloudfront_world)
             (rr_node Recycled.rr_cloudfront) = true /\
  written (rr_pretty_print (rr_node Recycled.rr_cloudfront)
             Recycled.cloudfront_world)
  = Some ("Type: 5 Class: 1 TTL: 600 RDLength: 16 RData (CNAME): " +:+ newline
          +:+ "cloudfront" +:+ String (ascii_of_nat 3) "net" +:+ newline) /\
  option_map count_newlines
    (written (rr_pretty_print (rr_node Recycled.rr_cloudfront)
                Recycled.cloudfront_world))
  = Some 2%nat.
Proof. repeat split; vm_compute; reflexivity. Qed.


(** The three records of an answer are rendered; the sentinel, whose
    record fields are those of the zeroed block, is not. *)
Example sentinel_not_printed :
  written (Recycled.list_run (L := resolver msg_ok) msg_ok 3 ready)
  = Some ("Type: 1 Class: 1 TTL: 300 RDLength: 4 RData: 192.0.2.1" +:+ newline
          +:+ "Type: 5 Class: 1 TTL: 600 RDLength: 4 RData (CNAME): www" +:+ newline
          +:+ "Type: 99 Class: 1 TTL: 6 RDLength: 2 RData (unknown type): 01 ab "
          +:+ newline).
Proof. vm_compute. reflexivity. Qed.

(** The decode pass relies on [malloc_clean]: when the blocks of malloc
    carry a stale link, the second append follows it and the pass faults. *)
Remark stale_link_faults :
  rr_response_parse (L := environment stale_block msg_ok) (Some 1%positive)
    msg_ok 3 ready = None.
Proof. vm_compute. reflexivity. Qed.

(** * Further properties *)

Arguments load : simpl never.
Arguments store : simpl never.

(** ** Frames *)

Lemma same_io_refl w : same_io w w.
Proof. by repeat split. Qed.

Lemma same_io_trans w1 w2 w3 : same_io w1 w2 -> same_io w2 w3 -> same_io w1 w3.
Proof. intros (? & ? & ?) (? & ? & ?). repeat split; congruence. Qed.

Lemma only_output_refl w : only_output w w.
Proof.
  repeat split; try done.
  - exists ""%string. by rewrite append_nil_r.
  - exists []. by rewrite app_nil_r.
  - exists []. by rewrite app_nil_r.
Qed.

Lemma only_output_trans w1 w2 w3 :
  only_output w1 w2 -> only_output w2 w3 -> only_output w1 w3.
Proof.
  intros (Hh & Hp & [t Ht] & [e He] & [r Hr])
         (Hh' & Hp' & [t' Ht'] & [e' He'] & [r' Hr']).
  repeat split; try congruence.
  - exists (t +:+ t'). by rewrite Ht', Ht, append_assoc.
  - exists (e ++ e'). by rewrite He', He, <- app_assoc.
  - exists (r ++ r'). by rewrite Hr', Hr, <- app_assoc.
Qed.

Section Frames.
Context (R : world -> world -> Prop).
Hypothesis R_refl : forall w, R w w.
Hypothesis R_trans : forall w1 w2 w3, R w1 w2 -> R w2 w3 -> R w1 w3.

Lemma preserves_ret {A} (a : A) : preserves R (ret a).
Proof. intros w a' w' [= _ <-]. apply R_refl. Qed.

Lemma preserves_fault {A} : preserves R (@fault A).
Proof. by intros w a w'. Qed.

Lemma preserves_get_world : preserves R get_world.
Proof. intros w a w' [= _ <-]. apply R_refl. Qed.

Lemma preserves_get_packet : preserves R get_packet.
Proof. intros w a w' [= _ <-]. apply R_refl. Qed.

Lemma preserves_bind {A B} (m : M A) (k : A -> M B) :
  preserves R m -> (forall a, preserves R (k a)) -> preserves R (bind m k).
Proof.
  intros Hm Hk w b w'. unfold bind.
  destruct (m w) as [[a w1]|] eqn:Hmw; [|done].
  intros Hkw. eapply R_trans; [by eapply Hm|by eapply Hk].
Qed.

End Frames.

Lemma same_io_perror s : preserves same_io (perror s).
Proof. by intros w a w' [= _ <-]. Qed.

Lemma same_io_set_heap h : preserves same_io (modify (set_heap h)).
Proof. by intros w a w' [= _ <-]. Qed.

Lemma same_io_load p : preserves same_io (load p).
Proof.
  intros w a w'. unfold load. destruct p as [l|]; [|done].
  destruct (heap w !! l); [|done]. intros [= _ <-]. apply same_io_refl.
Qed.

Lemma same_io_store p n : preserves same_io (store p n).
Proof.
  intros w a w'. unfold store. destruct p as [l|]; [|done].
  destruct (heap w !! l); [|done]. by intros [= _ <-].
Qed.

Lemma only_output_printf s : preserves only_output (printf s).
Proof.
  intros w a w' [= _ <-]. repeat split; simpl; eauto.
  - exists []. by rewrite app_nil_r.
  - exists []. by rewrite app_nil_r.
Qed.

Lemma only_output_perror s : preserves only_output (perror s).
Proof.
  intros w a w' [= _ <-]. repeat split; simpl; eauto.
  - exists ""%string. by rewrite append_nil_r.
  - exists []. by rewrite app_nil_r.
Qed.

Lemma only_output_log_load off : preserves only_output (modify (log_load off)).
Proof.
  intros w a w' [= _ <-]. repeat split; simpl; eauto.
  - exists ""%string. by rewrite append_nil_r.
  - exists []. by rewrite app_nil_r.
Qed.

Lemma only_output_load p : preserves only_output (load p).
Proof.
  intros w a w'. unfold load. destruct p as [l|]; [|done].
  destruct (heap w !! l); [|done]. intros [= _ <-]. apply only_output_refl.
Qed.

Lemma only_output_load_uchar p j : preserves only_output (load_uchar p j).
Proof.
  intros w a w'. unfold load_uchar. destruct p as [off|]; [|done].
  destruct (j <? 0); [done|].
  destruct (packet w !! (off + Z.to_nat j)%nat); [|done].
  intros [= _ <-]. by apply (only_output_log_load (off + Z.to_nat j) w tt).
Qed.

Ltac frame_step R_refl R_trans :=
  match goal with
  | |- preserves _ (bind _ _) =>
      apply (preserves_bind _ R_trans); [|intros ?]
  | |- preserves _ (ret _) => apply (preserves_ret _ R_refl)
  | |- preserves _ fault => apply preserves_fault
  | |- preserves _ get_world => apply (preserves_get_world _ R_refl)
  | |- preserves _ get_packet => apply (preserves_get_packet _ R_refl)
  | |- preserves _ (if ?b then _ else _) => destruct b
  | |- preserves _ (match ?x with _ => _ end) => destruct x
  | |- preserves _ (let '(_, _) := ?x in _) => destruct x
  end.

Ltac same_io_auto :=
  repeat first
    [ apply same_io_perror | apply same_io_set_heap | apply same_io_load
    | apply same_io_store | frame_step same_io_refl same_io_trans ].

Ltac only_output_auto :=
  repeat first
    [ apply only_output_printf | apply only_output_perror
    | apply only_output_log_load | apply only_output_load
    | apply only_output_load_uchar
    | frame_step only_output_refl only_output_trans ].

Lemma only_output_read_cstring bs :
  forall off, preserves only_output (read_cstring off bs).
Proof. induction bs as [|b bs IH]; intros off; simpl; only_output_auto. apply IH. Qed.

Lemma only_output_hexdump_loop k p :
  forall j, preserves only_output (hexdump_loop k p j).
Proof. induction k as [|k IH]; intros j; simpl; only_output_auto. apply IH. Qed.

Lemma only_output_rr_pretty_print n : preserves only_output (rr_pretty_print n).
Proof.
  unfold rr_pretty_print, load_cstring. only_output_auto;
    auto using only_output_read_cstring, only_output_hexdump_loop.
Qed.

Lemma only_output_rr_pretty_print_loop fuel :
  forall p, preserves only_output (rr_pretty_print_loop fuel p).
Proof.
  induction fuel as [|fuel IH]; intros [l|]; simpl; only_output_auto;
    auto using only_output_rr_pretty_print.
Qed.

Section ListFrames.
Context `{L : libc}.

Lemma same_io_rr_response_new : preserves same_io rr_response_new.
Proof. unfold rr_response_new. same_io_auto. Qed.

Lemma same_io_rr_response_add_walk fuel :
  forall p, preserves same_io (rr_response_add_walk fuel p).
Proof. induction fuel as [|fuel IH]; intros p; simpl; same_io_auto. apply IH. Qed.

Lemma same_io_rr_response_add response new :
  preserves same_io (rr_response_add response new).
Proof.
  unfold rr_response_add. same_io_auto; apply same_io_rr_response_add_walk.
Qed.

Lemma same_io_rr_response_parse_loop k response :
  forall msg i, preserves same_io (rr_response_parse_loop k response msg i).
Proof.
  induction k as [|k IH]; intros msg i; simpl; same_io_auto;
    auto using same_io_rr_response_new, same_io_rr_response_add.
Qed.

End ListFrames.

(** ** What the decoder and the renderer leave alone *)

(** X6. The decode pass is a structural step: whatever the list, the
    message, the answer count and the allocator, when it returns it has
    written nothing to stdout, has read no payload byte and has left the
    answer buffer as it was. *)
Theorem decode_reads_no_payload `{L : libc} response msg ancount w msg' w' :
  rr_response_parse response msg ancount w = Some (msg', w') ->
  packet w' = packet w /\ stdout w' = stdout w /\ loads w' = loads w.
Proof.
  revert w msg' w'. change (preserves same_io (rr_response_parse response msg ancount)).
  unfold rr_response_parse. same_io_auto; apply same_io_rr_response_parse_loop.
Qed.

(** X7. The renderer only reads: whatever the heap holds, when it returns
    the heap and the answer buffer are as they were, and stdout, stderr
    and the log of reads have only been appended to. *)
Theorem renderer_only_reads response w u w' :
  rr_pretty_print_all response w = Some (u, w') ->
  heap w' = heap w /\ packet w' = packet w /\
  (exists text, stdout w' = stdout w +:+ text) /\
  (exists errs, stderr w' = stderr w ++ errs) /\
  (exists reads, loads w' = loads w ++ reads).
Proof.
  revert w u w'. change (preserves only_output (rr_pretty_print_all response)).
  unfold rr_pretty_print_all. only_output_auto.
  apply only_output_rr_pretty_print_loop.
Qed.

(** ** The list operations on their own *)

Lemma nodes_from_Some fuel : forall h p ns,
  nodes_from fuel h p = Some ns ->
  exists cells, is_list h p cells /\ cells.*2 = ns.
Proof.
  induction fuel as [|fuel IH]; intros h [l|] ns; simpl; try done.
  - intros [= <-]. exists []. split; [constructor|done].
  - destruct (h !! l) as [n|] eqn:Hl; [|done].
    destruct (nodes_from fuel h (next n)) as [ns'|] eqn:Hns; [|done].
    intros [= <-]. destruct (IH _ _ _ Hns) as (cells & Hcells & <-).
    exists ((l, n) :: cells). split; [by constructor|done].
  - intros [= <-]. exists []. split; [constructor|done].
Qed.

Lemma RecordList_Some h head rs :
  RecordList h (Some head) = Some rs ->
  exists s cells,
    is_list h (Some head) ((head, s) :: cells) /\ rr_of <$> cells.*2 = rs.
Proof.
  unfold RecordList. destruct (h !! head) as [s|] eqn:Hs; [|done].
  destruct (nodes_from (size h) h (next s)) as [ns|] eqn:Hns; [|done].
  intros [= <-]. destruct (nodes_from_Some _ _ _ _ Hns) as (cells & Hcells & <-).
  exists s, cells. split; [by constructor|done].
Qed.

Section ListTheorems.
Context `{L : libc}.

(** X1. [rr_response_add] links a node behind the last one: on a list of
    the records [rs], a node that is not part of the list and has a null
    link becomes the last record, the records before it keep their order,
    no node outside the list is touched and nothing is written or read. *)
Theorem add_links_behind_last w head s cells new nn :
  is_list (heap w) (Some head) ((head, s) :: cells) ->
  new ∉ head :: cells.*1 ->
  heap w !! new = Some nn -> next nn = None ->
  exists h',
    rr_response_add (Some head) (Some new) w = Some (tt, set_heap h' w) /\
    RecordList (heap w) (Some head) = Some (rr_of <$> cells.*2) /\
    RecordList h' (Some head) = Some ((rr_of <$> cells.*2) ++ [rr_of nn]) /\
    forall l, l ∉ head :: cells.*1 -> h' !! l = heap w !! l.
Proof.
  intros Hlist Hnew Hnn Hnull.
  pose proof (RecordList_is_list _ _ _ _ Hlist) as Hbefore.
  change (head :: cells.*1) with (((head, s) :: cells).*1) in *.
  pose proof (is_list_NoDup _ _ _ Hlist) as Hnd.
  destruct (cons_snoc (head, s) cells) as (front & [ll nl] & Hsplit).
  rewrite Hsplit in Hlist, Hnew, Hnd |- *.
  exists (<[ll := set_next nl (Some new)]> (heap w)).
  split; [by apply (rr_response_add_spec w head front)|].
  split; [done|].
  pose proof (is_list_snoc _ _ _ _ _ new nn Hlist Hnew Hnn Hnull) as Hsnoc.
  split.
  - destruct front as [|c front]; simpl in Hsplit, Hsnoc; simplify_eq.
    + by rewrite (RecordList_is_list _ _ _ _ Hsnoc).
    + rewrite (RecordList_is_list _ _ _ _ Hsnoc), !fmap_app. simpl.
      by rewrite <- app_assoc.
  - intros l Hl. apply lookup_insert_ne. intros ->. apply Hl.
    rewrite fmap_app. set_solver.
Qed.

(** X2. Appending the null pointer changes nothing: on any list,
    [rr_response_add] walks to the last node and stores the null link it
    already holds. *)
Theorem add_null_is_noop w head rs :
  RecordList (heap w) (Some head) = Some rs ->
  rr_response_add (Some head) None w = Some (tt, w).
Proof.
  intros (s & cells & Hlist & _)%RecordList_Some.
  destruct (cons_snoc (head, s) cells) as (front & [ll nl] & Hsplit).
  rewrite Hsplit in Hlist.
  rewrite (rr_response_add_spec w head front ll nl None Hlist).
  pose proof (is_list_last_null _ _ _ _ _ Hlist) as Hnull.
  apply is_list_tail in Hlist. inversion Hlist as [|? ? ? Hl _]; subst.
  replace (set_next nl None) with nl by (destruct nl; simpl in *; by subst).
  rewrite insert_id by done. by destruct w.
Qed.

(** X3. [rr_response_free] releases the head only: the head is gone, the
    nodes that were linked behind it are all still allocated and linked,
    and the number of live nodes drops by one. Freeing the null pointer
    does nothing. *)
Theorem free_releases_head_only w head s cells :
  is_list (heap w) (Some head) ((head, s) :: cells) ->
  exists h',
    rr_response_free (Some head) w = Some (tt, set_heap h' w) /\
    h' !! head = None /\
    is_list h' (next s) cells /\
    S (size h') = size (heap w) /\
    rr_response_free None w = Some (tt, w).
Proof.
  intros Hlist. pose proof (is_list_NoDup _ _ _ Hlist) as [Hnin _]%NoDup_cons.
  inversion Hlist as [|? ? ? Hl Hrest]; subst.
  exists (delete head (heap w)). repeat split.
  - unfold rr_response_free, bind, get_world. by rewrite Hl.
  - apply lookup_delete_eq.
  - clear Hlist Hl. induction Hrest as [|l n cells Hl _ IH]; [constructor|].
    simpl in Hnin. apply not_elem_of_cons in Hnin as [Hne Hnin].
    constructor; [by rewrite lookup_delete_ne|by apply IH].
  - rewrite map_size_delete, Hl.
    assert (size (heap w) <> 0%nat); [|lia].
    intros Hz%map_size_empty_inv. by rewrite Hz in Hl.
Qed.

(** X4. The null checks report and go on. On a null list head,
    [rr_response_add] and the renderer write "response is NULL" to stderr
    and then dereference the pointer; the decoder does so in its first
    iteration, and only returns, with the diagnostic, when there is no
    iteration to run. *)
Theorem null_head_is_dereferenced new msg ancount w :
  rr_response_add None new w = None /\
  rr_pretty_print_all None w = None /\
  rr_response_parse None msg ancount w
  = if 0 <? ancount then None
    else Some (msg, put_stderr "response is NULL" w).
Proof.
  split; [|split].
  - unfold rr_response_add, bind, perror, modify, get_world. by simpl.
  - unfold rr_pretty_print_all, bind, perror, modify. by simpl.
  - unfold rr_response_parse. unfold bind at 1, perror, modify.
    destruct (0 <? ancount) eqn:Hn;
      [apply Z.ltb_lt in Hn|apply Z.ltb_ge in Hn].
    + destruct (Z.to_nat ancount) as [|k] eqn:Hk; [lia|]. simpl.
      destruct (ns_parserr msg ns_s_an 0) as [[r msg1] rr].
      unfold bind at 1. set (w1 := put_stderr _ w).
      assert (exists w2, (if r <? 0 then perror "Could not parse response"
                          else ret tt) w1 = Some (tt, w2)) as [w2 ->].
      { destruct (r <? 0); eauto. }
      unfold bind at 1, rr_response_new, bind at 1, get_world.
      destruct (malloc_rr (heap w2)) as [junk|]; [|done].
      unfold bind, modify, ret, load, store. simpl.
      rewrite lookup_insert_eq. simpl. by rewrite lookup_insert_eq.
    + replace (Z.to_nat ancount) with 0%nat by lia. done.
Qed.

(** X5. A failed allocation is reported and then used. When malloc has no
    memory, [rr_response_new] writes its diagnostic and returns the null
    pointer with the heap as it was, and a decode pass with at least one
    answer then stores the record fields through that null pointer. *)
Theorem failed_malloc_is_dereferenced response msg ancount w :
  malloc_rr (heap w) = None -> 0 < ancount ->
  rr_response_new w
  = Some (None, put_stderr "Could not allocate rr_response" w) /\
  rr_response_parse response msg ancount w = None.
Proof.
  intros Hm Hn. split.
  - unfold rr_response_new, bind, get_world. by rewrite Hm.
  - unfold rr_response_parse.
    destruct (Z.to_nat ancount) as [|k] eqn:Hk; [lia|]. simpl.
    destruct (ns_parserr msg ns_s_an 0) as [[r msg1] rr].
    destruct response, (r <? 0);
      unfold rr_response_new; unfold bind, get_world, perror, modify, ret, put_stderr;
      simpl; by rewrite Hm.
Qed.

(** X8. The zero-answer boundary. With an answer count of zero (or less)
    the decode pass leaves the world as it is, whatever the allocator, and
    the renderer writes nothing for an empty list. *)
Theorem no_answers_no_lines w head s msg ancount :
  heap w !! head = Some s -> next s = None -> ancount <= 0 ->
  rr_response_parse (Some head) msg ancount w = Some (msg, w) /\
  RecordList (heap w) (Some head) = Some [] /\
  rr_pretty_print_all (Some head) w = Some (tt, w).
Proof.
  intros Hs Hnull Hn.
  assert (Hlist : is_list (heap w) (Some head) [(head, s)]).
  { constructor; [done|]. rewrite Hnull. constructor. }
  split; [|split].
  - unfold rr_response_parse. by replace (Z.to_nat ancount) with 0%nat by lia.
  - by rewrite (RecordList_is_list _ _ _ _ Hlist).
  - by rewrite (rr_pretty_print_all_spec _ _ _ _ Hlist).
Qed.

(** X9. The decode pass never aborts and appends to whatever list is
    there: on a list of the records [rs] it returns with the records
    [rs] followed by one record per index, failed extractions included,
    and stderr gets one "Could not parse response" per failed extraction.
    (malloc is assumed as in [malloc_clean].) *)
Theorem decode_appends_every_index w head rs msg ancount :
  malloc_clean ->
  RecordList (heap w) (Some head) = Some rs ->
  exists msg' w',
    rr_response_parse (Some head) msg ancount w = Some (msg', w') /\
    RecordList (heap w') (Some head)
    = Some (rs ++ (extractions (Z.to_nat ancount) msg 0).*2) /\
    stderr w'
    = stderr w ++ parse_errors (extractions (Z.to_nat ancount) msg 0).
Proof.
  intros Hclean (s & cells & Hlist & <-)%RecordList_Some.
  destruct (rr_response_parse_loop_spec (Z.to_nat ancount) w head s cells msg 0
              Hclean Hlist) as (msg' & h' & s' & cells' & Hrun & Hl' & _ & Hc).
  eexists msg', _. split; [exact Hrun|]. cbn [heap stderr]. split; [|done].
  by rewrite (RecordList_is_list _ _ _ _ Hl'), Hc.
Qed.

End ListTheorems.

(** ** When the renderer is defined, and what it reads *)

Lemma read_cstring_no_nul bs : forall off w,
  Byte.x00 ∉ bs -> read_cstring off bs w = None.
Proof.
  induction bs as [|b bs IH]; intros off w Hnul; [done|].
  apply not_elem_of_cons in Hnul as [Hb Hnul]. simpl.
  destruct (Byte.eqb b Byte.x00) eqn:Heq.
  { apply Byte.byte_dec_bl in Heq. congruence. }
  unfold bind, modify. by rewrite IH.
Qed.

Lemma existsb_nul_false (l : list Byte.byte) :
  existsb (Byte.eqb Byte.x00) l = false -> Byte.x00 ∉ l.
Proof.
  induction l as [|b l IH]; simpl; [intros _; apply not_elem_of_nil|].
  intros [Hb Hl]%orb_false_iff. apply not_elem_of_cons.
  split; [by apply Byte.eqb_false|by apply IH].
Qed.

Lemma load_uchar_Some p j w b w' :
  load_uchar p j w = Some (b, w') ->
  exists off, p = Some off /\ 0 <= j /\
    packet w !! (off + Z.to_nat j)%nat = Some b /\
    w' = log_load (off + Z.to_nat j)%nat w.
Proof.
  unfold load_uchar. destruct p as [off|]; [|done].
  destruct (j <? 0) eqn:Hj; [done|]. apply Z.ltb_ge in Hj.
  destruct (packet w !! (off + Z.to_nat j)%nat) as [b'|] eqn:Hb; [|done].
  intros [= <- <-]. by exists off.
Qed.

Lemma hexdump_loop_null k j w :
  (0 < k)%nat -> hexdump_loop k None j w = None.
Proof. destruct k; [lia|]. done. Qed.

Lemma hexdump_loop_oob off k : forall j w,
  0 <= j -> (0 < k)%nat ->
  (length (packet w) < off + Z.to_nat j + k)%nat ->
  hexdump_loop k (Some off) j w = None.
Proof.
  induction k as [|k IH]; intros j w Hj Hk Hlen; [lia|]. simpl.
  unfold bind at 1.
  destruct (load_uchar (Some off) j w) as [[b w1]|] eqn:Hld; [|done].
  apply load_uchar_Some in Hld as (off' & [= <-] & _ & Hb & ->).
  apply lookup_lt_Some in Hb.
  unfold bind, printf, modify. simpl.
  apply IH; simpl; lia.
Qed.

(** Where the payload pointer is not good for what the renderer reads
    through it, the renderer reads outside the answer buffer or through a
    null pointer. *)
Lemma rr_pretty_print_undefined w n :
  renderable (packet w) n = false -> rr_pretty_print n w = None.
Proof.
  unfold renderable, rr_pretty_print. intros Hr.
  destruct (type n =? ns_t_a) eqn:Ha.
  - destruct (rdlength n =? 4) eqn:Hlen; [|done].
    destruct (rdata n) as [off|] eqn:Hp.
    + apply Nat.leb_gt in Hr. run_printf.
      destruct (load_uchar _ 0 _) as [[b0 w0]|] eqn:H0; [|done].
      destruct (load_uchar _ 1 _) as [[b1 w1]|] eqn:H1; [|done].
      destruct (load_uchar _ 2 _) as [[b2 w2]|] eqn:H2; [|done].
      destruct (load_uchar _ 3 _) as [[b3 w3]|] eqn:H3; [|done].
      apply load_uchar_Some in H0 as (? & [= <-] & _ & _ & ->).
      apply load_uchar_Some in H1 as (? & [= <-] & _ & _ & ->).
      apply load_uchar_Some in H2 as (? & [= <-] & _ & _ & ->).
      apply load_uchar_Some in H3 as (? & [= <-] & _ & Hb & _).
      apply lookup_lt_Some in Hb. simpl in Hb.
      change (Z.to_nat 3) with 3%nat in Hb. lia.
    + run_printf. unfold load_uchar. done.
  - destruct (type n =? ns_t_cname) eqn:Hc.
    + destruct (rdata n) as [off|] eqn:Hp.
      * apply existsb_nul_false in Hr. run_printf.
        unfold load_cstring, bind, get_packet. simpl.
        by rewrite read_cstring_no_nul.
      * run_printf. unfold load_cstring. done.
    + apply orb_false_iff in Hr as [Hle Hr]. apply Z.leb_gt in Hle.
      destruct (rdata n) as [off|] eqn:Hp.
      * apply Nat.leb_gt in Hr. run_printf.
        rewrite hexdump_loop_oob; [done|done|lia|simpl; lia].
      * run_printf. rewrite hexdump_loop_null; [done|lia].
Qed.

(** X10. The renderer is defined exactly on the renderable records: it
    returns if and only if the payload pointer is good for what the record
    kind makes it read (4 bytes in the buffer for an address record of
    length 4, a NUL somewhere behind the pointer for a canonical name,
    [rdlength] bytes in the buffer otherwise); in every other case it
    reads through a null pointer or outside the answer buffer. *)
Theorem rendering_defined_iff_renderable w n :
  is_Some (rr_pretty_print n w) <-> renderable (packet w) n = true.
Proof.
  split.
  - intros [x Hx]. destruct (renderable (packet w) n) eqn:Hr; [done|].
    by rewrite rr_pretty_print_undefined in Hx.
  - intros Hr. destruct (rr_pretty_print_line w n Hr) as (f & w' & -> & _).
    by eexists.
Qed.

(** X11. Except for a canonical name, the renderer stays inside the
    payload: every byte it reads lies at an offset from [rdata] up to
    [rdata + rdlength - 1]. *)
Theorem reads_stay_in_payload w n u w' :
  type n <> ns_t_cname ->
  rr_pretty_print n w = Some (u, w') ->
  exists reads,
    loads w' = loads w ++ reads /\
    forall o, o ∈ reads ->
      exists off, rdata n = Some off /\
        (off <= o)%nat /\ Z.of_nat o < Z.of_nat off + rdlength n.
Proof.
  intros Hc Hrun.
  assert (Hr : renderable (packet w) n = true).
  { destruct (renderable (packet w) n) eqn:Hr; [done|].
    by rewrite rr_pretty_print_undefined in Hrun. }
  unfold renderable in Hr.
  destruct (type n =? ns_t_a) eqn:Ha; [apply Z.eqb_eq in Ha|apply Z.eqb_neq in Ha].
  - destruct (rdlength n =? 4) eqn:Hlen;
      [apply Z.eqb_eq in Hlen|apply Z.eqb_neq in Hlen].
    + destruct (rdata n) as [off|] eqn:Hp; [|done].
      apply Nat.leb_le in Hr.
      pose proof (length_take_drop _ _ _ Hr) as Hl.
      destruct (take 4 (drop off (packet w)))
        as [|b0 [|b1 [|b2 [|b3 [|? ?]]]]] eqn:Hbs; try done.
      rewrite (rr_pretty_print_a w n off b0 b1 b2 b3) in Hrun by done.
      injection Hrun as _ <-. eexists. split; [done|].
      intros o Ho. exists off. split; [done|].
      rewrite !elem_of_cons, elem_of_nil in Ho. lia.
    + rewrite rr_pretty_print_a_invalid in Hrun by done.
      injection Hrun as _ <-. exists []. simpl. split; [by rewrite app_nil_r|].
      by intros o ?%elem_of_nil.
  - apply Z.eqb_neq in Hc as Hc'. rewrite Hc' in Hr.
    destruct (rdlength n <=? 0) eqn:Hle;
      [apply Z.leb_le in Hle|apply Z.leb_gt in Hle]; simpl in Hr.
    + rewrite rr_pretty_print_other_empty in Hrun by done.
      injection Hrun as _ <-. exists []. simpl. split; [by rewrite app_nil_r|].
      by intros o ?%elem_of_nil.
    + destruct (rdata n) as [off|] eqn:Hp; [|done].
      apply Nat.leb_le in Hr.
      pose proof (length_take_drop _ _ _ Hr) as Hl.
      rewrite (rr_pretty_print_other w n off
                 (take (Z.to_nat (rdlength n)) (drop off (packet w))))
        in Hrun; rewrite ?Hl; try done; [|lia].
      injection Hrun as _ <-. eexists. split; [done|].
      intros o Ho%elem_of_seq. exists off. split; [done|]. lia.
Qed.

(** X12. A canonical name is read as a C string, not as [rdlength] bytes:
    when there is no NUL among the [rdlength] bytes of the payload, the
    renderer reads on behind the payload, up to the first NUL in the
    answer buffer. *)
Theorem cname_reads_past_payload w n off bs rest :
  type n = ns_t_cname -> rdata n = Some off ->
  drop off (packet w) = bs ++ Byte.x00 :: rest ->
  Byte.x00 ∉ bs ->
  0 <= rdlength n <= Z.of_nat (length bs) ->
  exists w',
    rr_pretty_print n w = Some (tt, w') /\
    loads w' = loads w ++ seq off (S (length bs)) /\
    (off + Z.to_nat (rdlength n))%nat ∈ loads w'.
Proof.
  intros Ht Hp Hd Hnul Hlen.
  rewrite (rr_pretty_print_cname w n off bs rest) by done.
  eexists. split; [done|]. cbn [loads]. split; [done|].
  apply elem_of_app. right. apply elem_of_seq. lia.
Qed.

(** ** The hostname check and main *)



Lemma substring_0_all n : forall s,
  (String.length s <= n)%nat -> String.substring 0 n s = s.
Proof.
  induction n as [|n IH]; intros [|c s] Hlen; simpl in *; try done; [lia|].
  rewrite IH; [done|lia].
Qed.

Section Main.
Context `{L : libc}.

Lemma isvalidhostname_spec hostname w :
  isvalidhostname hostname w
  = Some ((if regexec hostname_pattern hostname =? 0 then 0 else 1),
          mk_world (heap w) (packet w) (stdout w)
                   (stderr w ++ isvalidhostname_errors hostname) (loads w)).
Proof.
  unfold isvalidhostname, isvalidhostname_errors.
  destruct (regcomp hostname_pattern REG_EXTENDED =? 0);
    destruct (regexec hostname_pattern hostname =? REG_NOMATCH) eqn:Hm;
    destruct (regexec hostname_pattern hostname =? 0) eqn:Hz;
    try (apply Z.eqb_eq in Hm, Hz; unfold REG_NOMATCH in Hm; congruence);
    run_printf; rewrite <- ?app_assoc, ?app_nil_r; simpl; by destruct w.
Qed.

(** X14. [isvalidhostname] returns 0 exactly when regexec returns 0 and 1
    in every other case; it touches nothing but stderr, where it leaves a
    diagnostic whenever it returns 1. A pattern that regcomp rejects is
    reported but the subject is matched all the same. *)
Theorem isvalidhostname_result hostname w :
  exists errs,
    isvalidhostname hostname w
    = Some ((if regexec hostname_pattern hostname =? 0 then 0 else 1),
            mk_world (heap w) (packet w) (stdout w) (stderr w ++ errs) (loads w)) /\
    ((regexec hostname_pattern hostname =? 0) = false -> errs <> []) /\
    ((regcomp hostname_pattern REG_EXTENDED =? 0) = false ->
     In "Could not compile regex"%string errs).
Proof.
  exists (isvalidhostname_errors hostname).
  split; [apply isvalidhostname_spec|]. unfold isvalidhostname_errors. split.
  - intros ->. destruct (regcomp _ _ =? 0), (regexec _ _ =? REG_NOMATCH); done.
  - intros ->. by left.
Qed.

Lemma main_head argv0 argv1 rest buf0 w :
  regexec hostname_pattern argv1 = 0 ->
  malloc_uchar NS_PACKETSZ = Some buf0 ->
  main (argv0 :: argv1 :: rest) w
  = (let '(response, ns_buffer) :=
       res_query (strncpy_hostname argv1) ns_c_in ns_t_a buf0 NS_PACKETSZ in
     if response <? 0 then
       fprintf_stderr ("Could not resolve hostname" +:+ newline) ;;
       modify (set_packet []) ;; ret 1
     else
       let '(r, msg) := ns_initparse ns_buffer response in
       if r <? 0 then
         fprintf_stderr ("Could not parse response" +:+ newline) ;;
         modify (set_packet []) ;; ret 1
       else
         (if ns_msg_count msg ns_s_an =? 0 then perror "No answers found"
          else ret tt) ;;
         main_tail msg (ns_msg_count msg ns_s_an))
      (after_query argv1
         (res_query (strncpy_hostname argv1) ns_c_in ns_t_a buf0 NS_PACKETSZ).2 w).
Proof.
  intros Hre Hbuf. unfold main. unfold bind at 1.
  assert (exists w1, (if 253 <? strlen argv1 then perror "Hostname is too long"
                      else ret tt) w = Some (tt, w1) /\
            w1 = mk_world (heap w) (packet w) (stdout w)
                   (stderr w ++ (if 253 <? strlen argv1
                                 then ["Hostname is too long"%string] else []))
                   (loads w)) as (w1 & -> & Hw1).
  { destruct (253 <? strlen argv1); eexists; (split; [done|]).
    - done.
    - rewrite app_nil_r. by destruct w. }
  unfold bind at 1. rewrite isvalidhostname_spec, Hre, Hbuf. simpl.
  destruct (res_query _ _ _ _ _) as [response buf]. simpl.
  unfold bind at 1, printf, modify. unfold bind at 1.
  subst w1. unfold after_query, put_stdout, set_packet. simpl.
  rewrite <- app_assoc.
  destruct (response <? 0); [done|].
  destruct (ns_initparse buf response) as [r msg].
  destruct (r <? 0); done.
Qed.

End Main.


Section MainTheorems.
Context `{L : libc}.

(** From the creation of the list on, [main] can only return 0, and it
    has released the answer buffer when it does. *)
Lemma main_tail_status msg ancount w st w' :
  main_tail msg ancount w = Some (st, w') -> st = 0 /\ packet w' = [].
Proof.
  unfold main_tail, bind.
  destruct (rr_response_new w) as [[p w1]|]; [|done].
  destruct (rr_response_parse p msg ancount w1) as [[m w2]|]; [|done].
  unfold printf, modify.
  destruct (rr_pretty_print_all p _) as [[u w3]|]; [|done].
  destruct (rr_response_free p w3) as [[u' w4]|]; [|done].
  by intros [= <- <-].
Qed.



(** X16. Once the answer is parsed, nothing makes [main] fail: for a
    hostname that matches, when the query and [ns_initparse] succeed,
    every run of [main] that returns exits with status 0 and has released
    the answer buffer, whatever the length of the hostname, the answer
    count and the outcome of the extractions. *)
Theorem parsed_answer_exits_zero argv0 argv1 rest buf0 w st w' :
  regexec hostname_pattern argv1 = 0 ->
  malloc_uchar NS_PACKETSZ = Some buf0 ->
  0 <= (res_query (strncpy_hostname argv1) ns_c_in ns_t_a buf0 NS_PACKETSZ).1 ->
  (let '(response, buf) :=
     res_query (strncpy_hostname argv1) ns_c_in ns_t_a buf0 NS_PACKETSZ in
   0 <= (ns_initparse buf response).1) ->
  main (argv0 :: argv1 :: rest) w = Some (st, w') ->
  st = 0 /\ packet w' = [].
Proof.
  intros Hre Hbuf Hq Hparse.
  rewrite (main_head argv0 argv1 rest buf0 w Hre Hbuf).
  destruct (res_query _ _ _ _ _) as [response buf]. simpl in *.
  replace (response <? 0) with false by (symmetry; apply Z.ltb_ge; lia).
  destruct (ns_initparse buf response) as [r msg]. simpl in *.
  replace (r <? 0) with false by (symmetry; apply Z.ltb_ge; lia).
  unfold bind at 1.
  destruct ((if ns_msg_count msg ns_s_an =? 0 then perror "No answers found"
             else ret tt) _) as [[u w1]|]; [|done].
  apply main_tail_status.
Qed.

(** X17. A hostname that does not match is rejected before anything else
    happens: [main] exits with status 1, has printed nothing, has made no
    query and has allocated nothing; stderr holds the diagnostic. *)
Theorem invalid_hostname_exits_one argv0 argv1 rest w :
  regexec hostname_pattern argv1 <> 0 ->
  exists errs,
    main (argv0 :: argv1 :: rest) w
    = Some (1, mk_world (heap w) (packet w) (stdout w) (stderr w ++ errs) (loads w)) /\
    errs <> [].
Proof.
  intros Hre%Z.eqb_neq.
  exists ((if 253 <? strlen argv1 then ["Hostname is too long"%string] else [])
          ++ isvalidhostname_errors argv1).
  split.
  - unfold main. unfold bind at 1.
    destruct (253 <? strlen argv1); unfold perror, modify, ret;
      unfold bind; rewrite isvalidhostname_spec, Hre; simpl;
      unfold ret; rewrite <- ?app_assoc; simpl; by destruct w.
  - unfold isvalidhostname_errors. rewrite Hre.
    destruct (253 <? strlen argv1), (regcomp _ _ =? 0), (regexec _ _ =? REG_NOMATCH);
      done.
Qed.

(** X18. A query that fails, or an answer that [ns_initparse] rejects,
    ends the run: [main] exits with status 1 after the line that names the
    hostname, with the answer buffer released, no list node allocated and
    nothing rendered. *)
Theorem resolver_failure_exits_one argv0 argv1 rest buf0 response buf w :
  regexec hostname_pattern argv1 = 0 ->
  malloc_uchar NS_PACKETSZ = Some buf0 ->
  res_query (strncpy_hostname argv1) ns_c_in ns_t_a buf0 NS_PACKETSZ
  = (response, buf) ->
  response < 0 \/ (ns_initparse buf response).1 < 0 ->
  exists errs,
    main (argv0 :: argv1 :: rest) w
    = Some (1, mk_world (heap w) []
                 (stdout w +:+ ("Resolving hostname " +:+ strncpy_hostname argv1
                                +:+ newline))
                 (stderr w ++ errs) (loads w)) /\
    errs <> [].
Proof.
  intros Hre Hbuf Hq Hfail.
  rewrite (main_head argv0 argv1 rest buf0 w Hre Hbuf), Hq. simpl.
  set (before := (if 253 <? strlen argv1 then ["Hostname is too long"%string]
                  else []) ++ isvalidhostname_errors argv1).
  destruct (response <? 0) eqn:Hresp.
  - exists (before ++ ["Could not resolve hostname" +:+ newline]). split.
    + unfold bind, fprintf_stderr, modify, ret, after_query, set_packet,
        put_stderr. simpl. fold before. by rewrite <- !app_assoc.
    + intros Hnil%(f_equal length). rewrite length_app in Hnil.
      simpl in Hnil. lia.
  - apply Z.ltb_ge in Hresp. destruct Hfail as [?|Hfail]; [lia|].
    destruct (ns_initparse buf response) as [r msg]. simpl in Hfail.
    replace (r <? 0) with true by (symmetry; apply Z.ltb_lt; lia).
    exists (before ++ ["Could not parse response" +:+ newline]). split.
    + unfold bind, fprintf_stderr, modify, ret, after_query, set_packet,
        put_stderr. simpl. fold before. by rewrite <- !app_assoc.
    + intros Hnil%(f_equal length). rewrite length_app in Hnil.
      simpl in Hnil. lia.
Qed.

End MainTheorems.

(** ** The further properties at concrete inputs *)

Import Cases.

Ltac not_in_list H :=
  repeat (apply elem_of_cons in H as [H|H]; [discriminate H|]);
  by apply elem_of_nil in H.

Lemma one_record_is_list :
  is_list (heap one_record) (Some 1%positive)
    [(1%positive, set_next zero_block (Some 2%positive));
     (2%positive, rr_node rr_a)].
Proof. constructor; [reflexivity|]. constructor; [reflexivity|]. constructor. Defined.

Lemma add_links_behind_last_witness :
  exists h',
    rr_response_add (Some 1%positive) (Some 3%positive) spare
    = Some (tt, set_heap h' spare) /\
    RecordList (heap spare) (Some 1%positive) = Some [rr_a] /\
    RecordList h' (Some 1%positive) = Some ([rr_a] ++ [rr_99]) /\
    forall l, l ∉ [1%positive; 2%positive] -> h' !! l = heap spare !! l.
Proof.
  apply (add_links_behind_last spare 1%positive
           (set_next zero_block (Some 2%positive))
           [(2%positive, rr_node rr_a)] 3%positive (rr_node rr_99)).
  - constructor; [reflexivity|]. constructor; [reflexivity|]. constructor.
  - intros H. not_in_list H.
  - reflexivity.
  - reflexivity.
Defined.

Lemma add_null_is_noop_witness :
  rr_response_add (Some 1%positive) None one_record = Some (tt, one_record).
Proof. apply (add_null_is_noop one_record 1%positive [rr_a]). reflexivity. Defined.

Lemma free_releases_head_only_witness :
  exists h',
    rr_response_free (Some 1%positive) one_record = Some (tt, set_heap h' one_record) /\
    h' !! 1%positive = None /\
    is_list h' (Some 2%positive) [(2%positive, rr_node rr_a)] /\
    S (size h') = size (heap one_record) /\
    rr_response_free None one_record = Some (tt, one_record).
Proof.
  apply (free_releases_head_only one_record 1%positive
           (set_next zero_block (Some 2%positive)) [(2%positive, rr_node rr_a)]).
  exact one_record_is_list.
Defined.

Lemma failed_malloc_is_dereferenced_witness :
  rr_response_new (L := out_of_memory msg_ok) ready
  = Some (None, put_stderr "Could not allocate rr_response" ready) /\
  rr_response_parse (L := out_of_memory msg_ok) (Some 1%positive) msg_ok 3 ready
  = None.
Proof.
  apply (failed_malloc_is_dereferenced (L := out_of_memory msg_ok)
           (Some 1%positive) msg_ok 3 ready); [reflexivity|lia].
Defined.

Lemma decode_reads_no_payload_witness :
  match rr_response_parse (L := resolver msg_bad) (Some 1%positive) msg_bad 3 ready with
  | Some (_, w') =>
      packet w' = packet ready /\ stdout w' = stdout ready /\ loads w' = loads ready
  | None => False
  end.
Proof.
  destruct (rr_response_parse (L := resolver msg_bad) (Some 1%positive) msg_bad 3 ready)
    as [[msg' w']|] eqn:Hrun.
  - exact (decode_reads_no_payload (L := resolver msg_bad) _ _ _ _ _ _ Hrun).
  - vm_compute in Hrun. discriminate Hrun.
Defined.

Lemma renderer_only_reads_witness :
  match rr_pretty_print_all (Some 1%positive) one_record with
  | Some (_, w') =>
      heap w' = heap one_record /\ packet w' = packet one_record /\
      (exists text, stdout w' = stdout one_record +:+ text) /\
      (exists errs, stderr w' = stderr one_record ++ errs) /\
      (exists reads, loads w' = loads one_record ++ reads)
  | None => False
  end.
Proof.
  destruct (rr_pretty_print_all (Some 1%positive) one_record) as [[u w']|] eqn:Hrun.
  - exact (renderer_only_reads _ _ _ _ Hrun).
  - vm_compute in Hrun. discriminate Hrun.
Defined.

Lemma no_answers_no_lines_witness :
  rr_response_parse (L := resolver []) (Some 1%positive) [] 0 ready = Some ([], ready) /\
  RecordList (heap ready) (Some 1%positive) = Some [] /\
  rr_pretty_print_all (Some 1%positive) ready = Some (tt, ready).
Proof.
  apply (no_answers_no_lines (L := resolver []) ready 1%positive zero_block [] 0);
    [reflexivity|reflexivity|lia].
Defined.

Lemma decode_appends_every_index_witness :
  exists msg' w',
    rr_response_parse (L := resolver msg_bad) (Some 1%positive) msg_bad 3 one_record
    = Some (msg', w') /\
    RecordList (heap w') (Some 1%positive)
    = Some ([rr_a] ++ (extractions (L := resolver msg_bad) (Z.to_nat 3) msg_bad 0).*2) /\
    stderr w'
    = stderr one_record
      ++ parse_errors (extractions (L := resolver msg_bad) (Z.to_nat 3) msg_bad 0).
Proof.
  apply (decode_appends_every_index (L := resolver msg_bad) one_record 1%positive
           [rr_a] msg_bad 3).
  - intros h. by exists zero_block.
  - reflexivity.
Defined.

Lemma reads_stay_in_payload_witness :
  match rr_pretty_print (rr_node rr_99) ready with
  | Some (_, w') =>
      exists reads,
        loads w' = loads ready ++ reads /\
        forall o, o ∈ reads ->
          exists off, rdata (rr_node rr_99) = Some off /\
            (off <= o)%nat /\ Z.of_nat o < Z.of_nat off + rdlength (rr_node rr_99)
  | None => False
  end.
Proof.
  destruct (rr_pretty_print (rr_node rr_99) ready) as [[u w']|] eqn:Hrun.
  - apply (reads_stay_in_payload ready (rr_node rr_99) u w'); [|exact Hrun].
    compute. congruence.
  - vm_compute in Hrun. discriminate Hrun.
Defined.

Lemma cname_reads_past_payload_witness :
  exists w',
    rr_pretty_print (rr_node rr_compressed) cname_world = Some (tt, w') /\
    loads w' = loads cname_world ++ seq 0 8 /\
    6%nat ∈ loads w'.
Proof.
  apply (cname_reads_past_payload cname_world (rr_node rr_compressed) 0
           [Byte.x03; Byte.x77; Byte.x77; Byte.x77; Byte.xc0; Byte.x0c; Byte.x78] []).
  - reflexivity.
  - reflexivity.
  - reflexivity.
  - intros H. not_in_list H.
  - simpl. lia.
Defined.


Lemma parsed_answer_exits_zero_witness :
  match main (L := resolver []) ["simple_lookup"; long_hostname]%string start with
  | Some (st, w') => st = 0 /\ packet w' = []
  | None => False
  end.
Proof.
  destruct (main (L := resolver []) ["simple_lookup"; long_hostname]%string start)
    as [[st w']|] eqn:Hrun.
  - apply (parsed_answer_exits_zero (L := resolver []) "simple_lookup" long_hostname
             [] (repeat Byte.x00 512) start st w'); try exact Hrun.
    + vm_compute. reflexivity.
    + reflexivity.
    + vm_compute. discriminate.
    + vm_compute. discriminate.
  - vm_compute in Hrun. discriminate Hrun.
Defined.

Lemma invalid_hostname_exits_one_witness :
  exists errs,
    main (L := resolver msg_ok) ["simple_lookup"; "bad_host"]%string start
    = Some (1, mk_world (heap start) (packet start) (stdout start)
                 (stderr start ++ errs) (loads start)) /\
    errs <> [].
Proof.
  apply (invalid_hostname_exits_one (L := resolver msg_ok)
           "simple_lookup" "bad_host" [] start).
  vm_compute. discriminate.
Defined.

Lemma resolver_failure_exits_one_witness :
  exists errs,
    main (L := offline) ["simple_lookup"; "example.com"]%string start
    = Some (1, mk_world (heap start) []
                 (stdout start
                  +:+ ("Resolving hostname " +:+ strncpy_hostname "example.com"
                       +:+ newline))
                 (stderr start ++ errs) (loads start)) /\
    errs <> [].
Proof.
  apply (resolver_failure_exits_one (L := offline) "simple_lookup" "example.com" []
           (repeat Byte.x00 512) (-1) (repeat Byte.x00 512) start).
  - reflexivity.
  - reflexivity.
  - reflexivity.
  - left. lia.
Defined.
